(** * HyperPython, [util/lxf_rk2.py]: a two-stage Lax-Friedrichs scheme

    The script solves the scalar conservation law with flux
    [f q = q (1 - q)] on a padded uniform grid, with minmod-limited slopes
    and a predictor/corrector time step.  This file embeds the script and
    proves the properties its specification states.

    The embedding is written once, over an interface [Num] of the scalar
    operations the script uses, and is run under two instances:

    - [Num_float]: IEEE binary64, the arithmetic the script executes
      (Python [float], numpy [float64]); it computes with [vm_compute];
    - [Num_R]: exact real arithmetic, the reading under which the
      specification's identities over "real differences" are stated.

    numpy arrays are lists.  Shape errors, index errors and Python's
    [ZeroDivisionError] and [OverflowError] are kept, in the error monad
    [result]. *)

From Stdlib Require Import Reals Lra Lia ZArith List Bool.
From Stdlib Require Import Floats.PrimFloat Floats.FloatOps Floats.SpecFloat.
Import ListNotations.

Set Implicit Arguments.

(** ** Python exceptions and the error monad *)

Inductive exn : Type :=
| ZeroDivisionError
| OverflowError
| ValueError
| IndexError.

Inductive result (X : Type) : Type :=
| Ok (x : X)
| Raise (e : exn).

Arguments Ok {X} x.
Arguments Raise {X} e.

Definition bind {X Y : Type} (r : result X) (k : X -> result Y) : result Y :=
  match r with
  | Ok x => k x
  | Raise e => Raise e
  end.

Declare Scope py_scope.
Delimit Scope py_scope with py.
Notation "x <- e ;; k" := (bind e (fun x => k))
  (at level 61, e at next level, right associativity) : py_scope.
Notation "' p <- e ;; k" := (bind e (fun p => k))
  (at level 61, p pattern, e at next level, right associativity) : py_scope.

(** ** The scalar interface *)

Class Num (A : Type) : Type := {
  ofZ : Z -> A;                 (* an int, converted to a float *)
  fits : Z -> bool;             (* the conversion does not overflow *)
  add : A -> A -> A;
  sub : A -> A -> A;
  mul : A -> A -> A;
  div : A -> A -> A;            (* numpy's division: never raises *)
  nabs : A -> A;                (* np.abs *)
  sign : A -> A;                (* np.sign *)
  minimum : A -> A -> A;        (* np.minimum *)
  maximum : A -> A -> A;        (* np.maximum *)
  ltb : A -> A -> bool;         (* < *)
  is_zero : A -> bool;          (* == 0.0 *)
  ceil : A -> option Z          (* ceiling of a finite value *)
}.

(** *** Exact reals *)

Definition Rsign (x : R) : R :=
  if Rlt_dec x 0 then -1 else if Rlt_dec 0 x then 1 else 0.

Definition Rltb (x y : R) : bool := if Rlt_dec x y then true else false.

Definition Ris_zero (x : R) : bool := if Req_dec_T x 0 then true else false.

Definition Rceil (x : R) : option Z := Some (1 - up (- x))%Z.

#[export] Instance Num_R : Num R := {
  ofZ := IZR;
  fits := fun _ => true;
  add := Rplus;
  sub := Rminus;
  mul := Rmult;
  div := Rdiv;
  nabs := Rabs;
  sign := Rsign;
  minimum := Rmin;
  maximum := Rmax;
  ltb := Rltb;
  is_zero := Ris_zero;
  ceil := Rceil
}.

(** *** binary64 *)

(* Python's conversion of an int: the nearest binary64 number, ties to
   even, of any integer; an int that rounds to 2^1024 or beyond does not
   convert (OverflowError) *)
Definition float_ofZ (z : Z) : float :=
  SF2Prim (binary_normalize prec emax z 0 false).

Definition float_fits (z : Z) : bool :=
  negb (PrimFloat.is_infinity (float_ofZ z)).

(* np.sign: -1, 0 or 1, and nan at nan *)
Definition float_sign (x : float) : float :=
  if PrimFloat.ltb x PrimFloat.zero then PrimFloat.opp PrimFloat.one
  else if PrimFloat.ltb PrimFloat.zero x then PrimFloat.one
  else if PrimFloat.eqb x PrimFloat.zero then PrimFloat.zero
  else x.

(* numpy's loops: (a <= b || isnan(a)) ? a : b, so that nan propagates *)
Definition float_minimum (a b : float) : float :=
  if PrimFloat.leb a b || PrimFloat.is_nan a then a else b.

Definition float_maximum (a b : float) : float :=
  if PrimFloat.leb b a || PrimFloat.is_nan a then a else b.

Definition float_ceil (x : float) : option Z :=
  match Prim2SF x with
  | S754_zero _ => Some 0%Z
  | S754_finite s mant e =>
      let v := if s then Z.neg mant else Z.pos mant in
      if (0 <=? e)%Z then Some (v * 2 ^ e)%Z
      else Some (- ((- v) / 2 ^ (- e)))%Z
  | S754_infinity _ => None
  | S754_nan => None
  end.

#[export] Instance Num_float : Num float := {
  ofZ := float_ofZ;
  fits := float_fits;
  add := PrimFloat.add;
  sub := PrimFloat.sub;
  mul := PrimFloat.mul;
  div := PrimFloat.div;
  nabs := PrimFloat.abs;
  sign := float_sign;
  minimum := float_minimum;
  maximum := float_maximum;
  ltb := PrimFloat.ltb;
  is_zero := fun x => PrimFloat.eqb x PrimFloat.zero;
  ceil := float_ceil
}.

(** ** numpy arrays as lists *)

Section Arrays.
Context {A : Type}.

Definition map2 (op : A -> A -> A) (a b : list A) : list A :=
  map (fun p => op (fst p) (snd p)) (combine a b).

(* a binary operator on two arrays, with numpy's broadcasting of a
   one-element operand; any other shape mismatch is a ValueError *)
Definition ewise (op : A -> A -> A) (a b : list A) : result (list A) :=
  if Nat.eqb (length a) (length b) then Ok (map2 op a b)
  else match a, b with
       | [x], _ => Ok (map (op x) b)
       | _, [y] => Ok (map (fun x => op x y) a)
       | _, _ => Raise ValueError
       end.

(* a slice bound: a negative index counts from the end, and the result
   is clipped to the array *)
Definition norm (n : nat) (i : Z) : nat :=
  Z.to_nat (Z.min (Z.of_nat n)
              (Z.max 0 (if (i <? 0)%Z then i + Z.of_nat n else i))).

Definition lower (n : nat) (lo : option Z) : nat :=
  match lo with Some i => norm n i | None => 0 end.

Definition upper (n : nat) (hi : option Z) : nat :=
  match hi with Some j => norm n j | None => n end.

(* a[lo:hi] *)
Definition slice (lo hi : option Z) (a : list A) : list A :=
  let n := length a in
  firstn (upper n hi - lower n lo) (skipn (lower n lo) a).

(* a[lo:hi] = v, for a scalar v *)
Definition fillslice (lo hi : option Z) (a : list A) (v : A) : list A :=
  let n := length a in
  let k := upper n hi - lower n lo in
  firstn (lower n lo) a ++ repeat v k ++ skipn (lower n lo + k) a.

(* a[lo:hi] = src, for an array src *)
Definition setslice (lo hi : option Z) (a src : list A) : result (list A) :=
  let n := length a in
  let k := upper n hi - lower n lo in
  if Nat.eqb (length src) k
  then Ok (firstn (lower n lo) a ++ src ++ skipn (lower n lo + k) a)
  else match src with
       | [v] => Ok (fillslice lo hi a v)
       | _ => Raise ValueError
       end.

(* a[i] *)
Definition getitem (a : list A) (i : Z) : result A :=
  let j := (if (i <? 0)%Z then i + Z.of_nat (length a) else i)%Z in
  if ((0 <=? j) && (j <? Z.of_nat (length a)))%Z
  then match nth_error a (Z.to_nat j) with
       | Some v => Ok v
       | None => Raise IndexError
       end
  else Raise IndexError.

(** The arrays that are shared: the script binds [Q] to an array, puts
    that same array in the list [QQ], and later writes into the array
    [Q] names.  Such arrays live in a heap and are named by address. *)

Definition heap_t : Type := list (list A).

Definition load (h : heap_t) (a : nat) : list A := nth a h [].

Definition store (h : heap_t) (a : nat) (v : list A) : heap_t :=
  firstn a h ++ v :: skipn (S a) h.

Definition alloc (h : heap_t) (v : list A) : heap_t * nat :=
  (h ++ [v], length h).

(** Arrays by their entries: [tab n g] is the array of length [n] whose
    entry [i] is [g i], and [over i k h g] overwrites the entries
    [i .. i+k-1] of [g] by [h 0 .. h (k-1)]. *)
Definition tab (n : nat) (g : nat -> A) : list A := map g (seq 0 n).

Definition over (i k : nat) (h g : nat -> A) : nat -> A :=
  fun j => if (i <=? j) && (j <? i + k) then h (j - i) else g j.

End Arrays.

(** ** The script *)

Module Lxf.

Section Scheme.
Context {A : Type} `{NumA : Num A}.

Local Open Scope py_scope.

(* the literals 0., 1. (1.0), 2. (2.0) and 0.5 *)
Definition zero : A := ofZ 0.
Definition one : A := ofZ 1.
Definition two : A := ofZ 2.
Definition half : A := div (ofZ 1) (ofZ 2).

(* a decimal literal n/10: correctly rounded division gives the value
   the literal denotes *)
Definition tenths (n : Z) : A := div (ofZ n) (ofZ 10).

(* division of two Python floats *)
Definition pydiv (x y : A) : result A :=
  if is_zero y then Raise ZeroDivisionError else Ok (div x y).

(* a Python int as operand of a float operation *)
Definition to_float (z : Z) : result A :=
  if fits z then Ok (ofZ z) else Raise OverflowError.

(* np.zeros(n) *)
Definition zeros (n : Z) : result (list A) :=
  if (n <? 0)%Z then Raise ValueError else Ok (repeat zero (Z.to_nat n)).

(* np.arange(start, stop, step): ceil((stop - start)/step) entries; the
   first two are start and start + step, entry i is start + i*delta with
   delta the difference of the first two *)
Definition arange (start stop step : A) : result (list A) :=
  match ceil (div (sub stop start) step) with
  | None => Raise ValueError
  | Some n =>
      let next := add start step in
      let delta := sub next start in
      Ok (map (fun i => match i with
                        | O => start
                        | S O => next
                        | _ => add start (mul (ofZ (Z.of_nat i)) delta)
                        end)
            (seq 0 (Z.to_nat n)))
  end.

(* def f(q): return q*(1.0-q) *)
Definition f (q : A) : A := mul q (sub one q).

(* def minmod(a,b):
     return 0.5*(np.sign(a)+np.sign(b))*np.minimum(np.abs(a),np.abs(b)) *)
Definition minmod (a b : list A) : result (list A) :=
  s <- ewise add (map sign a) (map sign b) ;;
  mn <- ewise minimum (map nabs a) (map nabs b) ;;
  ewise mul (map (mul half) s) mn.

(** The state of the loop.  [Q] is an address in [heap]; [QQ] is the
    Python list of the arrays recorded so far, by address.  The work
    arrays [Qnew], [Qstar], [dQplus], [dQminus] and [F] are allocated
    once, written in place and named by nothing else, so they are kept
    by value; [sigma] is rebound to a new array in every stage. *)
Record state : Type := mkState {
  t : A;
  heap : heap_t (A := A);
  Q : nat;
  Qnew : list A;
  Qstar : list A;
  sigma : list A;
  dQplus : list A;
  dQminus : list A;
  F : list A;
  QQ : list nat
}.

(* the list of snapshots handed to the display *)
Definition history (s : state) : list (list A) := map (load (heap s)) (QQ s).

Section Loop.
Variables dx dt T : A.

(** Lines 35-42 and again 48-55: differences, limited slopes, edge
    states and numerical fluxes of the array [q]. *)
Definition fluxes (q : list A) (s : state) : result state :=
  (* dQplus[:-1] = q[1:]-q[:-1] *)
  d1 <- ewise sub (slice (Some 1%Z) None q) (slice None (Some (-1)%Z) q) ;;
  dQplus' <- setslice None (Some (-1)%Z) (dQplus s) d1 ;;
  (* dQminus[1:] = q[1:]-q[:-1] *)
  d2 <- ewise sub (slice (Some 1%Z) None q) (slice None (Some (-1)%Z) q) ;;
  dQminus' <- setslice (Some 1%Z) None (dQminus s) d2 ;;
  (* sigma = minmod(dQplus,dQminus)/dx *)
  mm <- minmod dQplus' dQminus' ;;
  let sigma' := map (fun v => div v dx) mm in
  (* qplus  = q[1:-1] - sigma[1:-1] * dx/2.0 *)
  qplus <- ewise sub (slice (Some 1%Z) (Some (-1)%Z) q)
             (map (fun v => div (mul v dx) two)
                (slice (Some 1%Z) (Some (-1)%Z) sigma')) ;;
  (* qminus = q[:-2]  + sigma[:-2]  * dx/2.0 *)
  qminus <- ewise add (slice None (Some (-2)%Z) q)
              (map (fun v => div (mul v dx) two)
                 (slice None (Some (-2)%Z) sigma')) ;;
  (* alpha = np.maximum(np.abs(1.-2.*qplus),np.abs(1.-2.*qminus)) *)
  alpha <- ewise maximum
             (map (fun v => nabs (sub one (mul two v))) qplus)
             (map (fun v => nabs (sub one (mul two v))) qminus) ;;
  (* F[1:-1] = 0.5*(f(qplus)+f(qminus) - alpha*dx/dt*(qplus-qminus) ) *)
  fs <- ewise add (map f qplus) (map f qminus) ;;
  dq <- ewise sub qplus qminus ;;
  diss <- ewise mul (map (fun v => div (mul v dx) dt) alpha) dq ;;
  inner <- ewise sub fs diss ;;
  F' <- setslice (Some 1%Z) (Some (-1)%Z) (F s) (map (mul half) inner) ;;
  Ok (mkState (t s) (heap s) (Q s) (Qnew s) (Qstar s) sigma'
        dQplus' dQminus' F' (QQ s)).

(* a[0:2] = a[2]; a[-2:] = a[-3] *)
Definition extend (a : list A) : result (list A) :=
  v <- getitem a 2 ;;
  let a1 := fillslice (Some 0%Z) (Some 2%Z) a v in
  w <- getitem a1 (-3) ;;
  Ok (fillslice (Some (-2)%Z) None a1 w).

(** Lines 35-46: the predictor stage. *)
Definition predictor (s : state) : result state :=
  let q := load (heap s) (Q s) in
  s1 <- fluxes q s ;;
  (* Qstar[2:-2] = Q[2:-2] - dt/dx*(F[3:-1]-F[2:-2]) *)
  r <- pydiv dt dx ;;
  dF <- ewise sub (slice (Some 3%Z) (Some (-1)%Z) (F s1))
          (slice (Some 2%Z) (Some (-2)%Z) (F s1)) ;;
  upd <- ewise sub (slice (Some 2%Z) (Some (-2)%Z) q) (map (mul r) dF) ;;
  Qstar1 <- setslice (Some 2%Z) (Some (-2)%Z) (Qstar s1) upd ;;
  (* Qstar[0:2] = Qstar[2]; Qstar[-2:] = Qstar[-3] *)
  Qstar2 <- extend Qstar1 ;;
  Ok (mkState (t s1) (heap s1) (Q s1) (Qnew s1) Qstar2 (sigma s1)
        (dQplus s1) (dQminus s1) (F s1) (QQ s1)).

(** Lines 48-57: the corrector stage. *)
Definition corrector (s : state) : result state :=
  let q := load (heap s) (Q s) in
  s1 <- fluxes (Qstar s) s ;;
  (* Qnew[2:-2] = 0.5*Q[2:-2]
                  + 0.5*(Qstar[2:-2] - dt/dx*(F[3:-1]-F[2:-2])) *)
  r <- pydiv dt dx ;;
  dF <- ewise sub (slice (Some 3%Z) (Some (-1)%Z) (F s1))
          (slice (Some 2%Z) (Some (-2)%Z) (F s1)) ;;
  inner <- ewise sub (slice (Some 2%Z) (Some (-2)%Z) (Qstar s1))
             (map (mul r) dF) ;;
  v <- ewise add (map (mul half) (slice (Some 2%Z) (Some (-2)%Z) q))
         (map (mul half) inner) ;;
  Qnew' <- setslice (Some 2%Z) (Some (-2)%Z) (Qnew s1) v ;;
  Ok (mkState (t s1) (heap s1) (Q s1) Qnew' (Qstar s1) (sigma s1)
        (dQplus s1) (dQminus s1) (F s1) (QQ s1)).

(** Lines 60-64: copy, extend the copy in place, advance, record. *)
Definition advance (s : state) : result state :=
  (* Q = Qnew.copy() *)
  let '(h1, a) := alloc (heap s) (Qnew s) in
  (* Q[0:2] = Q[2]; Q[-2:] = Q[-3] *)
  q' <- extend (load h1 a) ;;
  let h2 := store h1 a q' in
  (* t = t + dt; QQ.append(Q) *)
  Ok (mkState (add (t s) dt) h2 a (Qnew s) (Qstar s) (sigma s)
        (dQplus s) (dQminus s) (F s) (QQ s ++ [a])).

(* the body of the while loop *)
Definition step (s : state) : result state :=
  s1 <- predictor s ;;
  s2 <- corrector s1 ;;
  advance s2.

(* while t < T: ...; [None] when the fuel runs out first *)
Fixpoint run (fuel : nat) (s : state) : option (result state) :=
  match fuel with
  | O => None
  | S k =>
      if ltb (t s) T then
        match step s with
        | Ok s' => run k s'
        | Raise e => Some (Raise e)
        end
      else Some (Ok s)
  end.

End Loop.

(** Lines 15-31, with the cell count, the final time, the factor in
    [dt = 0.4 * dx] and the initial profile as parameters. *)
Record config : Type := mkConfig {
  m : Z;
  T : A;
  cfl : A;
  q0 : A -> A
}.

Record setting : Type := mkSetting {
  dx : A;
  dt : A;
  x : list A;
  init : state
}.

Definition setup (c : config) : result setting :=
  (* dx = 1./m *)
  mf <- to_float (m c) ;;
  dx <- pydiv one mf ;;
  (* x = np.arange(-3*dx/2, 1.+5*dx/2, dx) *)
  x <- arange (div (mul (ofZ (-3)) dx) (ofZ 2))
         (add one (div (mul (ofZ 5) dx) (ofZ 2))) dx ;;
  (* t = 0.; dt = 0.4 * dx *)
  let dt := mul (cfl c) dx in
  (* Q = q0(x), evaluated entry by entry *)
  let Q0 := map (q0 c) x in
  z <- zeros (m c + 4) ;;
  (* QQ = [Q] *)
  Ok (mkSetting dx dt x
        (mkState zero [Q0] 0 z z z z z z [0])).

(** *** The stages, entry by entry

    What the array expressions of a stage compute at index [i], for an
    array [q] given by its entries.  The facts about the stages prove that
    the code computes these. *)

(* a[i], for reading an array as a function of the index *)
Definition get (a : list A) (i : nat) : A := nth i a zero.

(* minmod at one pair of entries *)
Definition minmod1 (a b : A) : A :=
  mul (mul half (add (sign a) (sign b))) (minimum (nabs a) (nabs b)).

Section Entries.
Variables (n : nat) (dx dt : A).

(* dQplus after line 35: the last entry is not written *)
Definition dQplus_new (q old : nat -> A) (i : nat) : A :=
  if i <? n - 1 then sub (q (i + 1)) (q i) else old i.

(* dQminus after line 36: the first entry is not written *)
Definition dQminus_new (q old : nat -> A) (i : nat) : A :=
  if 1 <=? i then sub (q i) (q (i - 1)) else old i.

Definition slope (dp dm : nat -> A) (i : nat) : A :=
  div (minmod1 (dp i) (dm i)) dx.

(* the edge states at the interface between the cells i-1 and i *)
Definition qplus_at (q sg : nat -> A) (i : nat) : A :=
  sub (q i) (div (mul (sg i) dx) two).

Definition qminus_at (q sg : nat -> A) (i : nat) : A :=
  add (q (i - 1)) (div (mul (sg (i - 1)) dx) two).

Definition alpha_of (qp qm : A) : A :=
  maximum (nabs (sub one (mul two qp))) (nabs (sub one (mul two qm))).

Definition lxf (qp qm : A) : A :=
  mul half (sub (add (f qp) (f qm))
              (mul (div (mul (alpha_of qp qm) dx) dt) (sub qp qm))).

(* F after line 42: the first and the last entry are not written *)
Definition F_new (q sg old : nat -> A) (i : nat) : A :=
  if (1 <=? i) && (i <? n - 1)
  then lxf (qplus_at q sg i) (qminus_at q sg i)
  else old i.

(* the slopes and fluxes of a stage that reads [q], with the work
   arrays [dp0], [dm0] and [F0] as the stage finds them *)
Definition stage_slope (q dp0 dm0 : nat -> A) : nat -> A :=
  slope (dQplus_new q dp0) (dQminus_new q dm0).

Definition stage_flux (q dp0 dm0 F0 : nat -> A) : nat -> A :=
  F_new q (stage_slope q dp0 dm0) F0.

(* a[0:2] = a[2]; a[-2:] = a[-3] *)
Definition extend_at (g : nat -> A) (i : nat) : A :=
  if i <? 2 then g 2 else if n - 2 <=? i then g (n - 3) else g i.

(* the interior index whose entry the boundary extension puts at i *)
Definition near (i : nat) : nat :=
  if i <? 2 then 2 else if n - 2 <=? i then n - 3 else i.

(* line 43, on the interior entries *)
Definition star_at (q Fl old : nat -> A) (i : nat) : A :=
  if (2 <=? i) && (i <? n - 2)
  then sub (q i) (mul (div dt dx) (sub (Fl (i + 1)) (Fl i)))
  else old i.

(* line 57, on the interior entries *)
Definition new_at (q qs Fl old : nat -> A) (i : nat) : A :=
  if (2 <=? i) && (i <? n - 2)
  then add (mul half (q i))
         (mul half (sub (qs i) (mul (div dt dx) (sub (Fl (i + 1)) (Fl i)))))
  else old i.

(** The same without the work arrays: the slopes at 1 .. n-2 and the
    fluxes at 2 .. n-2 read only entries of [q]. *)
Definition slope_c (q : nat -> A) (i : nat) : A :=
  div (minmod1 (sub (q (i + 1)) (q i)) (sub (q i) (q (i - 1)))) dx.

Definition flux_c (q : nat -> A) (i : nat) : A :=
  lxf (qplus_at q (slope_c q) i) (qminus_at q (slope_c q) i).

Definition star_c (q : nat -> A) (i : nat) : A :=
  sub (q i) (mul (div dt dx) (sub (flux_c q (i + 1)) (flux_c q i))).

Definition new_c (q qs : nat -> A) (i : nat) : A :=
  add (mul half (q i))
    (mul half (sub (qs i)
                 (mul (div dt dx) (sub (flux_c qs (i + 1)) (flux_c qs i))))).

(* the array Q of the next time level *)
Definition next_c (q : nat -> A) : nat -> A :=
  extend_at (new_c q (extend_at (star_c q))).

Definition next (q : list A) : list A := tab n (next_c (get q)).

(** A constant array: the flux every interface gets from the constant
    c, the value line 43 makes of it and the value a complete time step
    makes of it, in the arithmetic at hand. *)
Definition flat_flux (c : A) : A :=
  let sg := div (minmod1 (sub c c) (sub c c)) dx in
  lxf (sub c (div (mul sg dx) two)) (add c (div (mul sg dx) two)).

Definition flat_star (c : A) : A :=
  sub c (mul (div dt dx) (sub (flat_flux c) (flat_flux c))).

Definition flat_next (c : A) : A :=
  add (mul half c)
    (mul half (sub (flat_star c)
                 (mul (div dt dx)
                    (sub (flat_flux (flat_star c))
                       (flat_flux (flat_star c)))))).

(* the snapshots after k time steps, oldest first *)
Fixpoint snapshots (k : nat) (q : list A) : list (list A) :=
  match k with
  | O => [q]
  | S k' => q :: snapshots k' (next q)
  end.

End Entries.

(* the number of passes through the loop: it reads only t, dt and T *)
Fixpoint ticks (dt T : A) (fuel : nat) (t : A) : option nat :=
  match fuel with
  | O => None
  | S k =>
      if ltb t T then option_map S (ticks dt T k (add t dt)) else Some O
  end.

(* the shapes the loop relies on: every array has n entries *)
Definition shaped (n : nat) (s : state) : Prop :=
  length (load (heap s) (Q s)) = n /\
  length (Qnew s) = n /\ length (Qstar s) = n /\
  length (dQplus s) = n /\ length (dQminus s) = n /\ length (F s) = n.

(* the ghost cells repeat the neighbouring interior cell:
   a[0] = a[1] = a[2] and a[n-1] = a[n-2] = a[n-3] *)
Definition ghost (n : nat) (a : list A) : Prop :=
  get a 0 = get a 2 /\ get a 1 = get a 2 /\
  get a (n - 1) = get a (n - 3) /\ get a (n - 2) = get a (n - 3).

(* the conserved quantity: the sum of Q[i]*dx over the interior cells *)
Definition total (dx : A) (q : list A) : A :=
  fold_right add zero
    (map (fun v => mul v dx) (slice (Some 2%Z) (Some (-2)%Z) q)).

(* every recorded address names an array of the heap *)
Definition recorded (s : state) : Prop :=
  Forall (fun a => a < length (heap s)) (QQ s).

(* the whole script, up to the call of the display: the grid and QQ *)
Definition program (c : config) (fuel : nat)
  : option (result (list A * list (list A))) :=
  match setup c with
  | Raise e => Some (Raise e)
  | Ok st =>
      match run (dx st) (dt st) (T c) fuel (init st) with
      | None => None
      | Some (Raise e) => Some (Raise e)
      | Some (Ok s) => Some (Ok (x st, history s))
      end
  end.

(* the state the loop starts from when the initial array is [q]: the
   work arrays are as np.zeros leaves them *)
Definition small_state (q : list A) : state :=
  let z := repeat zero (length q) in
  mkState zero [q] 0 z z z z z z [0].

(* a profile for test runs: 0.5 where |v - 0.5| < 0.3 and 0 elsewhere *)
Definition bump (v : A) : A :=
  if ltb (nabs (sub v (tenths 5))) (tenths 3) then tenths 5 else zero.

(* an array that is its own mirror image about the middle of the grid,
   a[i] = a[n-1-i]; the cell centres i and n-1-i are mirror images of
   each other about x = 0.5 *)
Definition mirror_sym (n : nat) (a : list A) : Prop :=
  forall i, i < n -> get a i = get a (n - 1 - i).

(* the mirror image composed with q -> 1 - q: a[i] = 1 - a[n-1-i] *)
Definition point_symf (n : nat) (a : nat -> A) : Prop :=
  forall i, i < n -> a i = sub one (a (n - 1 - i)).

Definition point_sym (n : nat) (a : list A) : Prop := point_symf n (get a).

(* the entries no line of the loop assigns: the first and last entry of
   F, the last of dQplus, the first of dQminus and the ghost entries of
   Qnew are the same in [s'] as in [s] *)
Definition same_ends (n : nat) (s s' : state) : Prop :=
  get (F s') 0 = get (F s) 0 /\
  get (F s') (n - 1) = get (F s) (n - 1) /\
  get (dQplus s') (n - 1) = get (dQplus s) (n - 1) /\
  get (dQminus s') 0 = get (dQminus s) 0 /\
  forall j, j < 2 \/ n - 2 <= j -> get (Qnew s') j = get (Qnew s) j.

(* the constants of the script: m = 100, T = 0.5, dt = 0.4 * dx *)
Definition reference (q0 : A -> A) : config :=
  mkConfig 100 (tenths 5) (tenths 4) q0.

End Scheme.

(* Q = 0.9*np.exp(-100*(x-0.5)**2), in exact arithmetic *)
Definition gaussian (v : R) : R :=
  (tenths 9 * exp (ofZ (-100)%Z * (v - tenths 5) ^ 2))%R.

(* dx and the grid of the script, as binary64 computes them *)
Definition dx_ref : float := Eval vm_compute in div one (ofZ 100).

Definition x_ref : list float :=
  Eval vm_compute in
    match arange (div (mul (ofZ (-3)) dx_ref) (ofZ 2))
            (add one (div (mul (ofZ 5) dx_ref) (ofZ 2))) dx_ref with
    | Ok l => l
    | Raise _ => []
    end.

End Lxf.

(** ** The display, [util/ianimate.py] *)

Module Ianimate.

Section Display.
Context {A : Type} `{NumA : Num A}.

Local Open Scope py_scope.

(** What [animation.FuncAnimation(fig, fplot, frames=len(q))] is built
    from: the frame function, the number of frames, and the axis bounds
    set by [plt.axis(bounds)].  A frame is the pair of arrays that
    [im.set_data] receives. *)
Record animation : Type := mkAnimation {
  fplot : Z -> result (list A * list A);
  frames : nat;
  axis : A * A * A * A
}.

(* the default argument bounds=(0,1,-0.1,1.1) *)
Definition default_bounds : A * A * A * A :=
  (ofZ 0, ofZ 1, Lxf.tenths (-1), Lxf.tenths 11).

(* def ianimate(xc,q,bounds): fplot(i) is im.set_data(xc, q[i]), and
   q[i] indexes a Python list *)
Definition ianimate (xc : list A) (q : list (list A))
    (bounds : A * A * A * A) : animation :=
  mkAnimation (fun i => y <- getitem q i ;; Ok (xc, y)) (length q) bounds.

(* the frames the animation draws: fplot(i) for i in range(frames) *)
Definition play (an : animation) : list (result (list A * list A)) :=
  map (fun i => fplot an (Z.of_nat i)) (seq 0 (frames an)).

(* lxf_rk2.py as a whole: the computation, then ianimate(x,QQ) *)
Definition script (c : Lxf.config) (fuel : nat)
  : option (result animation) :=
  match Lxf.program c fuel with
  | None => None
  | Some (Raise e) => Some (Raise e)
  | Some (Ok (x, QQ)) => Some (Ok (ianimate x QQ default_bounds))
  end.

End Display.

End Ianimate.


Import Lxf.

(** * Facts *)

(** ** Arrays *)

Section ArrayFacts.
Context {A : Type}.
Implicit Types (a b : list A) (g h : nat -> A).

Lemma tab_length n g : length (tab n g) = n.
Proof. unfold tab. now rewrite length_map, length_seq. Qed.

Lemma nth_tab n g i d : i < n -> nth i (tab n g) d = g i.
Proof.
  intros Hi. unfold tab.
  rewrite (nth_indep _ d (g 0)) by now rewrite length_map, length_seq.
  rewrite map_nth, seq_nth by assumption. reflexivity.
Qed.

Lemma tab_ext n g h : (forall i, i < n -> g i = h i) -> tab n g = tab n h.
Proof.
  intros E. unfold tab. apply map_ext_in. intros i Hi.
  apply in_seq in Hi. apply E. lia.
Qed.

Lemma tab_nth a d : a = tab (length a) (fun i => nth i a d).
Proof.
  apply nth_ext with (d := d) (d' := d).
  - now rewrite tab_length.
  - intros i Hi. now rewrite nth_tab.
Qed.

Lemma map_tab (k : A -> A) n g : map k (tab n g) = tab n (fun i => k (g i)).
Proof. unfold tab. now rewrite map_map. Qed.

Lemma seq_add_map i n : seq i n = map (Nat.add i) (seq 0 n).
Proof.
  induction i as [|i IH]; cbn [Nat.add].
  - now rewrite map_id.
  - rewrite <- seq_shift, IH, map_map. reflexivity.
Qed.

Lemma tab_shift n i g :
  map g (seq i n) = tab n (fun k => g (i + k)).
Proof. unfold tab. now rewrite seq_add_map, map_map. Qed.

Lemma skipn_tab i n g : skipn i (tab n g) = tab (n - i) (fun k => g (i + k)).
Proof.
  unfold tab at 1. rewrite skipn_map, skipn_seq. apply tab_shift.
Qed.

Lemma tab_app n k g :
  tab n g ++ tab k (fun i => g (n + i)) = tab (n + k) g.
Proof.
  unfold tab at 3. rewrite seq_app, map_app. cbn [Nat.add].
  rewrite (tab_shift k n g). reflexivity.
Qed.

Lemma firstn_tab j n g : j <= n -> firstn j (tab n g) = tab j g.
Proof.
  intros Hj. replace n with (j + (n - j)) by lia.
  rewrite <- tab_app, firstn_app, tab_length, Nat.sub_diag, firstn_0.
  rewrite app_nil_r. apply firstn_all2. rewrite tab_length. lia.
Qed.

Lemma slice_tab lo hi n g i k :
  lower n lo = i -> upper n hi = i + k -> i + k <= n ->
  slice lo hi (tab n g) = tab k (fun j => g (i + j)).
Proof.
  intros Hlo Hhi Hle. unfold slice. rewrite tab_length, Hlo, Hhi.
  replace (i + k - i) with k by lia.
  rewrite skipn_tab, firstn_tab by lia. reflexivity.
Qed.

Lemma combine_tab (X Y : Type) n (g : nat -> X) (h : nat -> Y) :
  combine (map g (seq 0 n)) (map h (seq 0 n))
  = map (fun i => (g i, h i)) (seq 0 n).
Proof.
  generalize 0. induction n as [|n IH]; intros s; [reflexivity|].
  cbn [seq map combine]. now rewrite IH.
Qed.

Lemma map2_tab (op : A -> A -> A) n g h :
  map2 op (tab n g) (tab n h) = tab n (fun i => op (g i) (h i)).
Proof.
  unfold map2, tab. rewrite combine_tab, map_map. reflexivity.
Qed.

Lemma ewise_tab (op : A -> A -> A) n g h :
  ewise op (tab n g) (tab n h) = Ok (tab n (fun i => op (g i) (h i))).
Proof.
  unfold ewise. rewrite !tab_length, Nat.eqb_refl. now rewrite map2_tab.
Qed.

Lemma over_tab i k n h g :
  i + k <= n ->
  tab i g ++ tab k h ++ tab (n - (i + k)) (fun j => g (i + k + j))
  = tab n (over i k h g).
Proof.
  intros Hle.
  replace n with (i + (k + (n - (i + k)))) at 2 by lia.
  rewrite <- !tab_app. f_equal; [|f_equal].
  - apply tab_ext. intros j Hj. unfold over.
    destruct (i <=? j) eqn:E; [apply Nat.leb_le in E; lia|reflexivity].
  - apply tab_ext. intros j Hj. unfold over.
    destruct (Nat.leb_spec i (i + j)); [|lia].
    destruct (Nat.ltb_spec (i + j) (i + k)); [|lia].
    cbn. f_equal. lia.
  - apply tab_ext. intros j Hj. unfold over.
    destruct (Nat.ltb_spec (i + (k + j)) (i + k)); [lia|].
    rewrite andb_false_r. f_equal. lia.
Qed.

Lemma setslice_tab lo hi n g k h i :
  lower n lo = i -> upper n hi = i + k -> i + k <= n ->
  setslice lo hi (tab n g) (tab k h) = Ok (tab n (over i k h g)).
Proof.
  intros Hlo Hhi Hle. unfold setslice.
  rewrite !tab_length, Hlo, Hhi.
  replace (i + k - i) with k by lia. rewrite Nat.eqb_refl.
  rewrite firstn_tab, skipn_tab by lia. now rewrite over_tab.
Qed.

Lemma repeat_tab (v : A) k : repeat v k = tab k (fun _ => v).
Proof.
  unfold tab. generalize 0.
  induction k as [|k IH]; intros s; [reflexivity|].
  cbn [repeat seq map]. now rewrite <- IH.
Qed.

Lemma fillslice_tab lo hi n g v i k :
  lower n lo = i -> upper n hi = i + k -> i + k <= n ->
  fillslice lo hi (tab n g) v = tab n (over i k (fun _ => v) g).
Proof.
  intros Hlo Hhi Hle. unfold fillslice.
  rewrite !tab_length, Hlo, Hhi.
  replace (i + k - i) with k by lia.
  rewrite firstn_tab, skipn_tab, repeat_tab by lia. now rewrite over_tab.
Qed.

Lemma getitem_tab n g (i : Z) j :
  Z.of_nat j = (if (i <? 0)%Z then i + Z.of_nat n else i)%Z -> j < n ->
  getitem (tab n g) i = Ok (g j).
Proof.
  intros Hj Hlt. unfold getitem. rewrite tab_length, <- Hj.
  destruct (Z.leb_spec 0 (Z.of_nat j)); [|lia].
  destruct (Z.ltb_spec (Z.of_nat j) (Z.of_nat n)); [|lia].
  cbn [andb]. rewrite Nat2Z.id.
  rewrite (nth_error_nth' _ (g 0)) by now rewrite tab_length.
  now rewrite nth_tab.
Qed.

End ArrayFacts.

(** ** The stages compute their entries *)

Lemma bind_Ok (X Y : Type) (v : X) (k : X -> result Y) : bind (Ok v) k = k v.
Proof. reflexivity. Qed.

Ltac bounds :=
  unfold lower, upper, norm;
  repeat match goal with
    | |- context [Z.ltb ?a ?b] => destruct (Z.ltb_spec a b)
    end;
  lia.

(* case analysis on the comparisons of indices in the goal *)
Ltac nat_cases :=
  repeat (match goal with
          | |- context [Nat.leb ?a ?b] => destruct (Nat.leb_spec a b)
          | |- context [Nat.ltb ?a ?b] => destruct (Nat.ltb_spec a b)
          end; cbn [andb orb negb]; try lia).

Section StageFacts.
Context {A : Type} `{NumA : Num A}.
Variables (n : nat) (dx dt : A).
Hypothesis Hn : 5 <= n.
Implicit Types (g h : nat -> A) (s : @state A).

Lemma slice_1_N g :
  slice (Some 1%Z) None (tab n g) = tab (n - 1) (fun j => g (1 + j)).
Proof. apply slice_tab; bounds. Qed.

Lemma slice_N_m1 g :
  slice None (Some (-1)%Z) (tab n g) = tab (n - 1) (fun j => g (0 + j)).
Proof. apply slice_tab; bounds. Qed.

Lemma slice_1_m1 g :
  slice (Some 1%Z) (Some (-1)%Z) (tab n g) = tab (n - 2) (fun j => g (1 + j)).
Proof. apply slice_tab; bounds. Qed.

Lemma slice_N_m2 g :
  slice None (Some (-2)%Z) (tab n g) = tab (n - 2) (fun j => g (0 + j)).
Proof. apply slice_tab; bounds. Qed.

Lemma slice_2_m2 g :
  slice (Some 2%Z) (Some (-2)%Z) (tab n g) = tab (n - 4) (fun j => g (2 + j)).
Proof. apply slice_tab; bounds. Qed.

Lemma slice_3_m1 g :
  slice (Some 3%Z) (Some (-1)%Z) (tab n g) = tab (n - 4) (fun j => g (3 + j)).
Proof. apply slice_tab; bounds. Qed.

Lemma setslice_N_m1 g h :
  setslice None (Some (-1)%Z) (tab n g) (tab (n - 1) h)
  = Ok (tab n (over 0 (n - 1) h g)).
Proof. apply setslice_tab; bounds. Qed.

Lemma setslice_1_N g h :
  setslice (Some 1%Z) None (tab n g) (tab (n - 1) h)
  = Ok (tab n (over 1 (n - 1) h g)).
Proof. apply setslice_tab; bounds. Qed.

Lemma setslice_1_m1 g h :
  setslice (Some 1%Z) (Some (-1)%Z) (tab n g) (tab (n - 2) h)
  = Ok (tab n (over 1 (n - 2) h g)).
Proof. apply setslice_tab; bounds. Qed.

Lemma setslice_2_m2 g h :
  setslice (Some 2%Z) (Some (-2)%Z) (tab n g) (tab (n - 4) h)
  = Ok (tab n (over 2 (n - 4) h g)).
Proof. apply setslice_tab; bounds. Qed.

Lemma extend_tab g : extend (tab n g) = Ok (tab n (extend_at n g)).
Proof.
  unfold extend.
  rewrite getitem_tab with (j := 2) by bounds. rewrite bind_Ok.
  rewrite fillslice_tab with (i := 0) (k := 2) by bounds.
  rewrite getitem_tab with (j := n - 3) by bounds. rewrite bind_Ok.
  rewrite fillslice_tab with (i := n - 2) (k := 2) by bounds.
  f_equal. apply tab_ext. intros i Hi. unfold over, extend_at.
  nat_cases; try reflexivity; try lia.
Qed.

Lemma dplus_over (q old : nat -> A) j :
  over 0 (n - 1) (fun i => sub (q (1 + i)) (q (0 + i))) old j
  = dQplus_new n q old j.
Proof.
  unfold over, dQplus_new. nat_cases; try reflexivity.
  f_equal; f_equal; lia.
Qed.

Lemma dminus_over (q old : nat -> A) j :
  j < n ->
  over 1 (n - 1) (fun i => sub (q (1 + i)) (q (0 + i))) old j
  = dQminus_new q old j.
Proof.
  intros Hj. unfold over, dQminus_new. nat_cases; try reflexivity.
  f_equal; f_equal; lia.
Qed.

(** Lines 35-42. *)
Lemma fluxes_tab qf p0 m0 F0 s :
  dQplus s = tab n p0 -> dQminus s = tab n m0 -> F s = tab n F0 ->
  fluxes dx dt (tab n qf) s
  = Ok (mkState (t s) (heap s) (Q s) (Qnew s) (Qstar s)
          (tab n (stage_slope n dx qf p0 m0))
          (tab n (dQplus_new n qf p0))
          (tab n (dQminus_new qf m0))
          (tab n (stage_flux n dx dt qf p0 m0 F0))
          (QQ s)).
Proof.
  intros Hp Hm HF. unfold fluxes. rewrite Hp, Hm, HF.
  unfold minmod.
  repeat (progress (rewrite ?slice_1_N, ?slice_N_m1, ?slice_1_m1,
                      ?slice_N_m2, ?map_tab, ?ewise_tab, ?setslice_N_m1,
                      ?setslice_1_N, ?setslice_1_m1; cbn [bind])).
  f_equal. f_equal.
  - apply tab_ext. intros i Hi. rewrite dplus_over, dminus_over by lia.
    reflexivity.
  - apply tab_ext. intros i Hi. apply dplus_over.
  - apply tab_ext. intros i Hi. now apply dminus_over.
  - apply tab_ext. intros i Hi. unfold stage_flux, F_new.
    unfold over at 1. nat_cases; try reflexivity.
    rewrite !dplus_over, !dminus_over by lia.
    replace (1 + (i - 1)) with i by lia.
    replace (0 + (i - 1)) with (i - 1) by lia.
    reflexivity.
Qed.

Lemma as_tab (a : list A) : length a = n -> a = tab n (get a).
Proof. intros <-. apply tab_nth. Qed.
End StageFacts.

Section StepFacts.
Context {A : Type} `{NumA : Num A}.
Variables (n : nat) (dx dt : A).
Hypothesis Hn : 5 <= n.
Hypothesis Hdx : is_zero dx = false.
Implicit Types (g h : nat -> A) (s : @state A).

Lemma pydiv_ok : pydiv dt dx = Ok (div dt dx).
Proof. unfold pydiv. now rewrite Hdx. Qed.

Lemma star_over q Fl old j :
  over 2 (n - 4)
    (fun i => sub (q (2 + i)) (mul (div dt dx) (sub (Fl (3 + i)) (Fl (2 + i)))))
    old j
  = star_at n dx dt q Fl old j.
Proof.
  unfold over, star_at. nat_cases; try reflexivity.
  replace (2 + (j - 2)) with j by lia.
  replace (3 + (j - 2)) with (j + 1) by lia. reflexivity.
Qed.

Lemma new_over q qs Fl old j :
  over 2 (n - 4)
    (fun i => add (mul half (q (2 + i)))
                (mul half (sub (qs (2 + i))
                             (mul (div dt dx) (sub (Fl (3 + i)) (Fl (2 + i)))))))
    old j
  = new_at n dx dt q qs Fl old j.
Proof.
  unfold over, new_at. nat_cases; try reflexivity.
  replace (2 + (j - 2)) with j by lia.
  replace (3 + (j - 2)) with (j + 1) by lia. reflexivity.
Qed.

(** Lines 35-46. *)
Lemma predictor_tab qf qs0 p0 m0 F0 s :
  load (heap s) (Q s) = tab n qf -> Qstar s = tab n qs0 ->
  dQplus s = tab n p0 -> dQminus s = tab n m0 -> F s = tab n F0 ->
  predictor dx dt s
  = Ok (mkState (t s) (heap s) (Q s) (Qnew s)
          (tab n (extend_at n
                    (star_at n dx dt qf (stage_flux n dx dt qf p0 m0 F0) qs0)))
          (tab n (stage_slope n dx qf p0 m0))
          (tab n (dQplus_new n qf p0))
          (tab n (dQminus_new qf m0))
          (tab n (stage_flux n dx dt qf p0 m0 F0))
          (QQ s)).
Proof.
  intros HQ Hs Hp Hm HF. unfold predictor.
  rewrite HQ, (fluxes_tab dx dt Hn qf p0 m0 F0 s Hp Hm HF). cbn [bind].
  rewrite pydiv_ok. cbn [bind F Qstar].
  rewrite slice_3_m1, !slice_2_m2 by assumption.
  rewrite ewise_tab. cbn [bind]. rewrite map_tab, ewise_tab. cbn [bind].
  rewrite Hs, setslice_2_m2 by assumption. cbn [bind].
  rewrite extend_tab by assumption. cbn [bind].
  cbn [t heap Q Qnew sigma dQplus dQminus F QQ].
  do 2 f_equal. apply tab_ext. intros i Hi. unfold extend_at.
  rewrite !star_over. reflexivity.
Qed.

(** Lines 48-57. *)
Lemma corrector_tab qf qs qn0 p0 m0 F0 s :
  load (heap s) (Q s) = tab n qf -> Qstar s = tab n qs ->
  Qnew s = tab n qn0 ->
  dQplus s = tab n p0 -> dQminus s = tab n m0 -> F s = tab n F0 ->
  corrector dx dt s
  = Ok (mkState (t s) (heap s) (Q s)
          (tab n (new_at n dx dt qf qs (stage_flux n dx dt qs p0 m0 F0) qn0))
          (Qstar s)
          (tab n (stage_slope n dx qs p0 m0))
          (tab n (dQplus_new n qs p0))
          (tab n (dQminus_new qs m0))
          (tab n (stage_flux n dx dt qs p0 m0 F0))
          (QQ s)).
Proof.
  intros HQ Hs Hq Hp Hm HF. unfold corrector.
  rewrite HQ, Hs, (fluxes_tab dx dt Hn qs p0 m0 F0 s Hp Hm HF). cbn [bind].
  rewrite pydiv_ok. cbn [bind F Qstar Qnew].
  rewrite Hs, Hq, slice_3_m1, !slice_2_m2 by assumption.
  rewrite ewise_tab. cbn [bind]. rewrite map_tab, ewise_tab. cbn [bind].
  rewrite !map_tab, ewise_tab. cbn [bind].
  rewrite setslice_2_m2 by assumption. cbn [bind].
  cbn [t heap Q Qnew sigma dQplus dQminus F QQ].
  do 2 f_equal. apply tab_ext. intros i Hi. apply new_over.
Qed.

Lemma load_alloc (h : heap_t (A := A)) v : load (h ++ [v]) (length h) = v.
Proof. unfold load. now rewrite nth_middle. Qed.

Lemma load_old (h : heap_t (A := A)) v a :
  a < length h -> load (h ++ [v]) a = load h a.
Proof. intros Ha. unfold load. now rewrite app_nth1. Qed.

Lemma store_alloc (h : heap_t (A := A)) v w :
  store (h ++ [v]) (length h) w = h ++ [w].
Proof.
  unfold store. rewrite firstn_app, Nat.sub_diag, firstn_0, app_nil_r.
  rewrite firstn_all. f_equal. f_equal.
  apply skipn_all2. rewrite length_app. cbn. lia.
Qed.

(** Lines 60-64. *)
Lemma advance_tab qn s :
  Qnew s = tab n qn ->
  advance dt s
  = Ok (mkState (add (t s) dt) (heap s ++ [tab n (extend_at n qn)])
          (length (heap s)) (Qnew s) (Qstar s) (sigma s) (dQplus s)
          (dQminus s) (F s) (QQ s ++ [length (heap s)])).
Proof.
  intros Hq. unfold advance, alloc.
  rewrite load_alloc, Hq, extend_tab by assumption. cbn [bind].
  now rewrite store_alloc.
Qed.
End StepFacts.

(** ** One time step, and the loop *)

Section LoopFacts.
Context {A : Type} `{NumA : Num A}.
Variables (n : nat) (dx dt T : A).
Hypothesis Hn : 5 <= n.
Hypothesis Hdx : is_zero dx = false.
Implicit Types (g h q : nat -> A) (s : @state A).

Lemma extend_at_ext g h :
  (forall j, 2 <= j <= n - 3 -> g j = h j) ->
  forall i, extend_at n g i = extend_at n h i.
Proof.
  intros E i. unfold extend_at. nat_cases; apply E; lia.
Qed.

Lemma extend_at_ghost g :
  extend_at n g 0 = extend_at n g 2 /\ extend_at n g 1 = extend_at n g 2 /\
  extend_at n g (n - 1) = extend_at n g (n - 3) /\
  extend_at n g (n - 2) = extend_at n g (n - 3).
Proof. unfold extend_at. repeat split; nat_cases; reflexivity. Qed.

Lemma extend_at_interior g i :
  2 <= i <= n - 3 -> extend_at n g i = g i.
Proof. intros Hi. unfold extend_at. nat_cases; reflexivity. Qed.

Lemma stage_slope_c q p0 m0 i :
  1 <= i <= n - 2 -> stage_slope n dx q p0 m0 i = slope_c dx q i.
Proof.
  intros Hi. unfold stage_slope, slope, slope_c, dQplus_new, dQminus_new.
  nat_cases; reflexivity.
Qed.

Lemma stage_flux_c q p0 m0 F0 i :
  2 <= i <= n - 2 -> stage_flux n dx dt q p0 m0 F0 i = flux_c dx dt q i.
Proof.
  intros Hi. unfold stage_flux, F_new, flux_c, qplus_at, qminus_at.
  nat_cases. rewrite !stage_slope_c by lia. reflexivity.
Qed.

Lemma slope_c_ext q q' i :
  (forall j, j < n -> q j = q' j) -> 1 <= i <= n - 2 ->
  slope_c dx q i = slope_c dx q' i.
Proof.
  intros E Hi. unfold slope_c. rewrite !E by lia. reflexivity.
Qed.

Lemma flux_c_ext q q' i :
  (forall j, j < n -> q j = q' j) -> 2 <= i <= n - 2 ->
  flux_c dx dt q i = flux_c dx dt q' i.
Proof.
  intros E Hi. unfold flux_c, qplus_at, qminus_at.
  rewrite slope_c_ext with (q' := q') (i := i) by (assumption || lia).
  rewrite slope_c_ext with (q' := q') (i := i - 1) by (assumption || lia).
  rewrite !E by lia. reflexivity.
Qed.

(* the predictor array, after its boundary extension *)
Lemma star_entries q p0 m0 F0 old i :
  extend_at n (star_at n dx dt q (stage_flux n dx dt q p0 m0 F0) old) i
  = extend_at n (star_c dx dt q) i.
Proof.
  apply extend_at_ext. intros j Hj. unfold star_at, star_c.
  nat_cases. rewrite !stage_flux_c by lia. reflexivity.
Qed.

(* the array of the next time level *)
Lemma next_entries q qs p0 m0 F0 old i :
  (forall j, j < n -> qs j = extend_at n (star_c dx dt q) j) ->
  extend_at n (new_at n dx dt q qs (stage_flux n dx dt qs p0 m0 F0) old) i
  = next_c n dx dt q i.
Proof.
  intros E. unfold next_c. apply extend_at_ext. intros j Hj.
  unfold new_at, new_c. nat_cases. rewrite !stage_flux_c by lia.
  rewrite flux_c_ext with (q' := extend_at n (star_c dx dt q)) (i := j + 1)
    by (assumption || lia).
  rewrite flux_c_ext with (q' := extend_at n (star_c dx dt q)) (i := j)
    by (assumption || lia).
  rewrite E by lia. reflexivity.
Qed.

(** On a state whose arrays all have [n] entries the body of the loop
    raises nothing: it allocates one array, the next time level, records
    its address and leaves every older array of the heap as it was. *)
Lemma step_ok s :
  shaped n s ->
  exists s',
    step dx dt s = Ok s' /\ shaped n s' /\
    t s' = add (t s) dt /\
    heap s' = heap s ++ [next n dx dt (load (heap s) (Q s))] /\
    Q s' = length (heap s) /\
    QQ s' = QQ s ++ [length (heap s)].
Proof.
  intros (HQ & Hq & Hs & Hp & Hm & HF).
  apply as_tab in HQ, Hq, Hs, Hp, Hm, HF; try exact Hn.
  unfold step.
  rewrite (@predictor_tab A NumA n dx dt Hn Hdx _ _ _ _ _ s HQ Hs Hp Hm HF).
  cbn [bind].
  match goal with
  | |- context [corrector dx dt ?s1] =>
      rewrite (@corrector_tab A NumA n dx dt Hn Hdx
                 (get (load (heap s) (Q s))) _ (get (Qnew s)) _ _ _ s1
                 HQ eq_refl Hq eq_refl eq_refl eq_refl)
  end.
  cbn [bind Qstar].
  match goal with
  | |- context [advance dt ?s2] =>
      rewrite (@advance_tab A NumA n dt Hn _ s2 eq_refl)
  end.
  eexists. split; [reflexivity|].
  cbn [t heap Q Qnew Qstar sigma dQplus dQminus F QQ].
  split; [|split; [reflexivity|split; [|split; reflexivity]]].
  - unfold shaped. cbn [t heap Q Qnew Qstar sigma dQplus dQminus F QQ].
    rewrite load_alloc, !tab_length. repeat split; reflexivity.
  - f_equal. f_equal. unfold next. apply tab_ext. intros i Hi.
    apply next_entries. intros j Hj. apply star_entries.
Qed.

Lemma history_step s s' v :
  recorded s -> heap s' = heap s ++ [v] ->
  QQ s' = QQ s ++ [length (heap s)] ->
  history s' = history s ++ [v] /\ recorded s'.
Proof.
  intros Hr Hh HQ. unfold history, recorded. rewrite Hh, HQ, map_app.
  cbn [map]. rewrite load_alloc. split.
  - f_equal. apply map_ext_in. intros a Ha. apply load_old.
    unfold recorded in Hr. rewrite Forall_forall in Hr. now apply Hr.
  - rewrite length_app. cbn [length]. apply Forall_app. split.
    + eapply Forall_impl; [|exact Hr]. cbn. intros; lia.
    + constructor; [lia|constructor].
Qed.

(** The loop: as many passes as [ticks] counts, each appending the next
    time level to the history; no pass raises. *)
Lemma run_history fuel : forall s H cur,
  shaped n s -> recorded s -> load (heap s) (Q s) = cur ->
  history s = H ++ [cur] ->
  match ticks dt T fuel (t s) with
  | None => run dx dt T fuel s = None
  | Some k =>
      exists s', run dx dt T fuel s = Some (Ok s') /\
                 history s' = H ++ snapshots n dx dt k cur
  end.
Proof.
  induction fuel as [|fuel IH]; intros s H cur Hsh Hr Hcur Hh; [reflexivity|].
  cbn [ticks run]. destruct (ltb (t s) T).
  - destruct (step_ok Hsh) as (s' & -> & Hsh' & Ht & Hheap & HQ' & HQQ).
    destruct (@history_step s s' _ Hr Hheap HQQ) as [Hh' Hr'].
    assert (Hcur' : load (heap s') (Q s') = next n dx dt cur).
    { rewrite Hheap, HQ', load_alloc, Hcur. reflexivity. }
    rewrite Hcur in Hh'. rewrite Hh in Hh'.
    specialize (IH s' (H ++ [cur]) (next n dx dt cur) Hsh' Hr' Hcur' Hh').
    rewrite Ht in IH. destruct (ticks dt T fuel (add (t s) dt)) as [k|].
    + cbn [option_map]. destruct IH as (s'' & Hrun & Hhist).
      exists s''. split; [exact Hrun|].
      rewrite Hhist, <- app_assoc. reflexivity.
    + exact IH.
  - exists s. split; [reflexivity|]. exact Hh.
Qed.
End LoopFacts.

(** ** The stage updates *)

Section Updates.
Context {A : Type} `{NumA : Num A}.

Lemma get_tab n (g : nat -> A) i : i < n -> get (tab n g) i = g i.
Proof. intros Hi. unfold get. now apply nth_tab. Qed.

(* the entries 0, 1, 2 agree, and so do the last three *)
Lemma ghost_extend n (g : nat -> A) :
  5 <= n -> ghost n (tab n (extend_at n g)).
Proof.
  intros Hn. destruct (extend_at_ghost Hn g) as (E0 & E1 & E2 & E3).
  unfold ghost. rewrite !get_tab by lia.
  rewrite E0, E1, E2, E3. repeat split; reflexivity.
Qed.

(** C1.  In every pass through the loop (the arrays all have n = m+4
    entries), the predictor stage writes, at every interior index
    i = 2 .. m+1, Qstar[i] = Q[i] - (dt/dx)*(F[i+1] - F[i]) with F the
    fluxes computed from Q, and extends Qstar to its ghost entries; the
    corrector stage writes Qnew[i] = 0.5*Q[i] + 0.5*(Qstar[i] -
    (dt/dx)*(F[i+1] - F[i])) with F the fluxes computed from that extended
    Qstar.  F[i] is the flux at the interface i-1/2 and F[i+1] the flux at
    i+1/2.  The statement holds in any arithmetic, binary64 included. *)
Theorem stage_updates (n : nat) (dx dt : A) (s : state) :
  5 <= n -> is_zero dx = false -> shaped n s ->
  let q := load (heap s) (Q s) in
  exists sa s1 sb s2,
    fluxes dx dt q s = Ok sa /\
    predictor dx dt s = Ok s1 /\ F s1 = F sa /\
    ghost n (Qstar s1) /\
    fluxes dx dt (Qstar s1) s1 = Ok sb /\
    corrector dx dt s1 = Ok s2 /\ F s2 = F sb /\
    forall i, 2 <= i <= n - 3 ->
      get (Qstar s1) i
      = sub (get q i)
          (mul (div dt dx) (sub (get (F s1) (i + 1)) (get (F s1) i))) /\
      get (Qnew s2) i
      = add (mul half (get q i))
          (mul half
             (sub (get (Qstar s1) i)
                (mul (div dt dx)
                   (sub (get (F s2) (i + 1)) (get (F s2) i))))).
Proof.
  intros Hn Hdx (HQ & Hq & Hs & Hp & Hm & HF) q.
  apply as_tab in HQ, Hq, Hs, Hp, Hm, HF; try exact Hn.
  fold q in HQ.
  set (p0 := get (dQplus s)) in *. set (m0 := get (dQminus s)) in *.
  set (F0 := get (F s)) in *.
  set (F1 := stage_flux n dx dt (get q) p0 m0 F0).
  set (qs := extend_at n (star_at n dx dt (get q) F1 (get (Qstar s)))).
  set (p1 := dQplus_new n (get q) p0). set (m1 := dQminus_new (get q) m0).
  set (F2 := stage_flux n dx dt qs p1 m1 F1).
  pose proof (fluxes_tab dx dt Hn (get q) p0 m0 F0 s Hp Hm HF) as Ea.
  rewrite <- HQ in Ea.
  pose proof (@predictor_tab A NumA n dx dt Hn Hdx _ _ _ _ _ s
                HQ Hs Hp Hm HF) as E1.
  fold p0 m0 F0 F1 qs p1 m1 in E1.
  match type of E1 with _ = Ok ?s1 =>
    pose proof (fluxes_tab dx dt Hn qs p1 m1 F1 s1
                  eq_refl eq_refl eq_refl) as Eb;
    pose proof (@corrector_tab A NumA n dx dt Hn Hdx (get q) qs
                  (get (Qnew s)) p1 m1 F1 s1 HQ eq_refl Hq
                  eq_refl eq_refl eq_refl) as E2
  end.
  do 4 eexists.
  split; [exact Ea|]. split; [exact E1|]. split; [reflexivity|].
  split; [apply ghost_extend; exact Hn|].
  split; [exact Eb|]. split; [exact E2|].
  cbn [F Qstar Qnew]. split; [reflexivity|].
  intros i Hi. rewrite !get_tab by lia. fold F2. split.
  - unfold qs. rewrite extend_at_interior by lia. unfold star_at.
    nat_cases. reflexivity.
  - unfold new_at. nat_cases. reflexivity.
Qed.
End Updates.

Lemma stage_updates_witness :
  let s := small_state [0; 0; 0.5; 0; 0]%float in
  let dx := 1%float in
  let dt := 0.5%float in
  let q := load (heap s) (Q s) in
  exists sa s1 sb s2,
    fluxes dx dt q s = Ok sa /\
    predictor dx dt s = Ok s1 /\ F s1 = F sa /\
    ghost 5 (Qstar s1) /\
    fluxes dx dt (Qstar s1) s1 = Ok sb /\
    corrector dx dt s1 = Ok s2 /\ F s2 = F sb /\
    forall i, 2 <= i <= 5 - 3 ->
      get (Qstar s1) i
      = sub (get q i)
          (mul (div dt dx) (sub (get (F s1) (i + 1)) (get (F s1) i))) /\
      get (Qnew s2) i
      = add (mul half (get q i))
          (mul half
             (sub (get (Qstar s1) i)
                (mul (div dt dx)
                   (sub (get (F s2) (i + 1)) (get (F s2) i))))).
Proof.
  apply (@stage_updates float Num_float 5 1%float 0.5%float
           (small_state [0; 0; 0.5; 0; 0]%float)).
  - lia.
  - reflexivity.
  - repeat split; reflexivity.
Defined.

(** ** Exact arithmetic: the limiter and the numerical flux *)

Open Scope R_scope.

Lemma Rsign_pos x : 0 < x -> Rsign x = 1.
Proof. intros H. unfold Rsign. destruct (Rlt_dec x 0), (Rlt_dec 0 x); lra. Qed.

Lemma Rsign_neg x : x < 0 -> Rsign x = -1.
Proof. intros H. unfold Rsign. destruct (Rlt_dec x 0); lra. Qed.

Lemma Rsign_zero : Rsign 0 = 0.
Proof. unfold Rsign. destruct (Rlt_dec 0 0); lra. Qed.

Lemma minmod1_R a b :
  minmod1 a b = 1 / 2 * (Rsign a + Rsign b) * Rmin (Rabs a) (Rabs b).
Proof. reflexivity. Qed.

Lemma minmod1_pos a b : 0 < a -> 0 < b -> minmod1 a b = Rmin a b.
Proof.
  intros Ha Hb. rewrite minmod1_R, !Rsign_pos, !Rabs_pos_eq by lra. lra.
Qed.

Lemma minmod1_neg a b : a < 0 -> b < 0 -> minmod1 a b = - Rmin (- a) (- b).
Proof.
  intros Ha Hb. rewrite minmod1_R, !Rsign_neg by lra.
  rewrite !Rabs_left by lra. lra.
Qed.

Lemma minmod1_opposite a b : a * b <= 0 -> minmod1 a b = 0.
Proof.
  intros H. rewrite minmod1_R.
  destruct (Rtotal_order a 0) as [Ha|[Ha|Ha]].
  - destruct (Rle_or_lt b 0) as [Hb|Hb].
    + assert (b = 0) by nra. subst b.
      rewrite Rabs_R0, Rmin_right by apply Rabs_pos. lra.
    + rewrite (Rsign_neg Ha), (Rsign_pos Hb). lra.
  - subst a. rewrite Rabs_R0, Rmin_left by apply Rabs_pos. lra.
  - destruct (Rle_or_lt 0 b) as [Hb|Hb].
    + assert (b = 0) by nra. subst b.
      rewrite Rabs_R0, Rmin_right by apply Rabs_pos. lra.
    + rewrite (Rsign_pos Ha), (Rsign_neg Hb). lra.
Qed.

Lemma minmod1_sym (a b : R) : minmod1 a b = minmod1 b a.
Proof. rewrite !minmod1_R, (Rmin_comm (Rabs a)). lra. Qed.

Lemma minmod_tab n (g h : nat -> R) :
  minmod (tab n g) (tab n h) = Ok (tab n (fun i => minmod1 (g i) (h i))).
Proof.
  unfold minmod.
  repeat (progress (rewrite ?map_tab, ?ewise_tab; cbn [bind])).
  reflexivity.
Qed.

(** C3.  For arrays of differences a = dQplus[i] and b = dQminus[i] and
    dx > 0, the limited slope sigma[i] = minmod(a,b)/dx is zero exactly
    when a and b have opposite signs or one of them is zero; otherwise it
    has the common sign of a and b and magnitude min(|a|,|b|)/dx; in every
    case its magnitude is at most min(|a|,|b|)/dx.  Each stage of the
    scheme computes its slope array in this way. *)
Theorem minmod_slope (dx : R) (da db : list R) :
  0 < dx -> length da = length db ->
  exists mm,
    minmod da db = Ok mm /\ length mm = length da /\
    (forall i, (i < length da)%nat ->
       let a := get da i in
       let b := get db i in
       let sigma := get mm i / dx in
       (sigma = 0 <->
        (0 < a /\ b < 0) \/ (a < 0 /\ 0 < b) \/ a = 0 \/ b = 0) /\
       (0 < a -> 0 < b -> 0 < sigma /\ sigma = Rmin (Rabs a) (Rabs b) / dx) /\
       (a < 0 -> b < 0 -> sigma < 0 /\ - sigma = Rmin (Rabs a) (Rabs b) / dx) /\
       Rabs sigma <= Rmin (Rabs a) (Rabs b) / dx) /\
    (forall dt q s s',
       fluxes dx dt q s = Ok s' ->
       exists mm', minmod (dQplus s') (dQminus s') = Ok mm' /\
                   sigma s' = map (fun v => v / dx) mm').
Proof.
  intros Hdx Hlen.
  rewrite (tab_nth da 0), (tab_nth db 0), <- Hlen.
  set (n := length da).
  rewrite minmod_tab. eexists. split; [reflexivity|].
  split; [now rewrite !tab_length|]. split.
  - intros i Hi. rewrite tab_length in Hi. rewrite !get_tab by assumption.
    cbv zeta. generalize (nth i da 0) (nth i db 0). intros a b.
    assert (Hinv : 0 < / dx) by now apply Rinv_0_lt_compat.
    assert (Hz : a * b <= 0 ->
                 minmod1 a b / dx = 0 /\
                 0 <= Rmin (Rabs a) (Rabs b) / dx).
    { intros Hab. rewrite (minmod1_opposite Hab). split.
      - unfold Rdiv. lra.
      - apply Rmult_le_pos; [|lra]. apply Rmin_glb; apply Rabs_pos. }
    destruct (Rtotal_order a 0) as [Ha|[Ha|Ha]],
             (Rtotal_order b 0) as [Hb|[Hb|Hb]].
    all: try (destruct Hz as [Hz0 Hz1]; [nra|];
              rewrite Hz0, Rabs_R0;
              split; [split; [intros _; first [left; split; lra | right; left; split; lra | right; right; left; lra | right; right; right; lra]|reflexivity]|];
              split; [intros; lra|]; split; [intros; lra|exact Hz1]).
    + clear Hz. rewrite minmod1_neg, (Rabs_left a), (Rabs_left b) by lra.
      assert (Hm : 0 < Rmin (- a) (- b)) by (apply Rmin_glb_lt; lra).
      assert (Hs : - Rmin (- a) (- b) / dx < 0) by (unfold Rdiv; nra).
      split; [split; [lra|intros [?|[?|[?|?]]]; lra]|].
      split; [intros; lra|]. split; [intros _ _; split; [lra|]|].
      * unfold Rdiv. lra.
      * rewrite Rabs_left by exact Hs. unfold Rdiv. lra.
    + clear Hz. rewrite minmod1_pos, (Rabs_pos_eq a), (Rabs_pos_eq b) by lra.
      assert (Hm : 0 < Rmin a b) by (apply Rmin_glb_lt; lra).
      assert (Hs : 0 < Rmin a b / dx) by (unfold Rdiv; nra).
      split; [split; [lra|intros [?|[?|[?|?]]]; lra]|].
      split; [intros _ _; split; [lra|reflexivity]|].
      split; [intros; lra|]. rewrite Rabs_pos_eq by lra. lra.
  - intros dt q s s' E. unfold fluxes in E.
    repeat match type of E with
           | bind ?r _ = Ok _ =>
               destruct r eqn:?; cbn [bind] in E; [|discriminate]
           end.
    inversion E; subst s'; clear E. cbn [dQplus dQminus sigma].
    eexists. split; [eassumption|reflexivity].
Qed.

Lemma minmod_slope_witness :
  let da := [1; -1; 3] in
  let db := [2; 3; 0] in
  exists mm,
    minmod da db = Ok mm /\ length mm = length da /\
    (forall i, (i < length da)%nat ->
       let a := get da i in
       let b := get db i in
       let sigma := get mm i / (1 / 100) in
       (sigma = 0 <->
        (0 < a /\ b < 0) \/ (a < 0 /\ 0 < b) \/ a = 0 \/ b = 0) /\
       (0 < a -> 0 < b ->
        0 < sigma /\ sigma = Rmin (Rabs a) (Rabs b) / (1 / 100)) /\
       (a < 0 -> b < 0 ->
        sigma < 0 /\ - sigma = Rmin (Rabs a) (Rabs b) / (1 / 100)) /\
       Rabs sigma <= Rmin (Rabs a) (Rabs b) / (1 / 100)) /\
    (forall dt q s s',
       fluxes (1 / 100) dt q s = Ok s' ->
       exists mm', minmod (dQplus s') (dQminus s') = Ok mm' /\
                   sigma s' = map (fun v => v / (1 / 100)) mm').
Proof.
  apply (@minmod_slope (1 / 100) [1; -1; 3] [2; 3; 0]); [lra|reflexivity].
Defined.
Lemma f_R (q : R) : f q = q * (1 - q).
Proof. reflexivity. Qed.

Lemma lxf_R (dx dt qp qm : R) :
  lxf dx dt qp qm
  = 0.5 * (f qp + f qm
           - Rmax (Rabs (1 - 2 * qp)) (Rabs (1 - 2 * qm)) * (dx / dt)
             * (qp - qm)).
Proof.
  unfold lxf, alpha_of, half, one, two. cbn [add sub mul div nabs maximum Num_R ofZ].
  set (al := Rmax _ _). unfold Rdiv. lra.
Qed.

(** C2, as amended.  In each stage, for the stage's array q, the slope
    array sigma the stage computes and every interface index
    i = 1 .. m+2 (n = m+4), the flux the program stores is, in the
    program's own arithmetic (binary64 included) and order of evaluation,
      F[i] = 0.5*((f(qplus) + f(qminus)) - ((alpha*dx)/dt)*(qplus - qminus))
    with qplus = q[i] - (sigma[i]*dx)/2, qminus = q[i-1] + (sigma[i-1]*dx)/2,
    alpha = max(|1-2*qplus|, |1-2*qminus|) and f(q) = q*(1-q).  In exact
    arithmetic with dt <> 0 this is
      0.5*(f(qplus) + f(qminus) - alpha*(dx/dt)*(qplus - qminus)):
    the dissipation coefficient is alpha*(dx/dt), not alpha alone. *)
Theorem flux_formula :
  (forall (A : Type) (NumA : Num A) (n : nat) (dx dt : A) (q : list A)
          (s : state),
     (5 <= n)%nat -> length q = n -> length (dQplus s) = n ->
     length (dQminus s) = n -> length (F s) = n ->
     exists s',
       fluxes dx dt q s = Ok s' /\
       forall i, (1 <= i <= n - 2)%nat ->
         let qplus := sub (get q i) (div (mul (get (sigma s') i) dx) two) in
         let qminus :=
           add (get q (i - 1)) (div (mul (get (sigma s') (i - 1)) dx) two) in
         let alpha :=
           maximum (nabs (sub one (mul two qplus)))
             (nabs (sub one (mul two qminus))) in
         get (F s') i
         = mul half (sub (add (f qplus) (f qminus))
                       (mul (div (mul alpha dx) dt) (sub qplus qminus)))) /\
  (forall dx dt qp qm : R,
     dt <> 0 ->
     let alpha := Rmax (Rabs (1 - 2 * qp)) (Rabs (1 - 2 * qm)) in
     mul half (sub (add (f qp) (f qm)) (mul (div (mul alpha dx) dt) (sub qp qm)))
     = 0.5 * (qp * (1 - qp) + qm * (1 - qm) - alpha * (dx / dt) * (qp - qm))).
Proof.
  split.
  - intros A NumA n dx dt q s Hn Hq Hp Hm HF.
    apply as_tab in Hq, Hp, Hm, HF; try exact Hn.
    pose proof (fluxes_tab dx dt Hn (get q) _ _ _ s Hp Hm HF) as E.
    rewrite <- Hq in E. eexists. split; [exact E|].
    intros i Hi. cbn [F sigma]. rewrite !get_tab by lia.
    unfold stage_flux, F_new. nat_cases. reflexivity.
  - intros dx dt qp qm Hdt alpha. subst alpha.
    change (lxf dx dt qp qm
            = 0.5 * (qp * (1 - qp) + qm * (1 - qm)
                     - Rmax (Rabs (1 - 2 * qp)) (Rabs (1 - 2 * qm))
                       * (dx / dt) * (qp - qm))).
    rewrite lxf_R, !f_R. reflexivity.
Qed.

(* the fluxes of the binary64 array 0, 0.1, 0.3, 0.1, 0 with the script's
   dx = 1/100 and dt = 0.4*dx *)
Lemma flux_formula_witness :
  let dx := div one (ofZ 100) : float in
  let dt := mul (tenths 4) dx in
  let q := [zero; tenths 1; tenths 3; tenths 1; zero] in
  exists s',
    fluxes dx dt q (small_state q) = Ok s' /\
    forall i, (1 <= i <= 5 - 2)%nat ->
      let qplus := sub (get q i) (div (mul (get (sigma s') i) dx) two) in
      let qminus :=
        add (get q (i - 1)) (div (mul (get (sigma s') (i - 1)) dx) two) in
      let alpha :=
        maximum (nabs (sub one (mul two qplus)))
          (nabs (sub one (mul two qminus))) in
      get (F s') i
      = mul half (sub (add (f qplus) (f qminus))
                    (mul (div (mul alpha dx) dt) (sub qplus qminus))).
Proof.
  intros dx dt q.
  apply (proj1 flux_formula float Num_float 5%nat dx dt q (small_state q));
    (lia || reflexivity).
Defined.

(** C2, as stated, fails for the program.  In binary64, with the script's
    dx = 1/100 and dt = 0.4*dx, the array 0, 0.1, 0.3, 0.1, 0 gives at the
    interface 2 the edge states qplus = 0.3 and qminus = 0.15000000000000002
    and alpha = 0.7; the program stores F[2] = 0.03750000000000006, the
    formula with alpha*(dx/dt) gives 0.03750000000000003. *)
Lemma flux_formula_counterexample :
  let dx := div one (ofZ 100) : float in
  let dt := mul (tenths 4) dx in
  let q := [zero; tenths 1; tenths 3; tenths 1; zero] in
  exists s',
    fluxes dx dt q (small_state q) = Ok s' /\
    let qplus := sub (get q 2) (div (mul (get (sigma s') 2) dx) two) in
    let qminus := add (get q 1) (div (mul (get (sigma s') 1) dx) two) in
    let alpha :=
      maximum (nabs (sub one (mul two qplus)))
        (nabs (sub one (mul two qminus))) in
    let stated :=
      mul half (sub (add (f qplus) (f qminus))
                  (mul (mul alpha (div dx dt)) (sub qplus qminus))) in
    PrimFloat.eqb (get (F s') 2) 0.03750000000000006%float = true /\
    PrimFloat.eqb stated 0.03750000000000003%float = true /\
    PrimFloat.ltb stated (get (F s') 2) = true /\
    get (F s') 2 <> stated.
Proof.
  intros dx dt q. eexists. split; [vm_compute; reflexivity|].
  cbv zeta. split; [vm_compute; reflexivity|].
  split; [vm_compute; reflexivity|]. split; [vm_compute; reflexivity|].
  match goal with
  | |- ?a <> ?b =>
      intros H;
      assert (E : PrimFloat.ltb b a = true) by (vm_compute; reflexivity);
      rewrite H in E; vm_compute in E; discriminate E
  end.
Qed.

(** ** The whole script *)

Close Scope R_scope.

Section ProgramFacts.
Context {A : Type} `{NumA : Num A}.

Lemma snapshots_length n (dx dt : A) k : forall q,
  length (snapshots n dx dt k q) = S k.
Proof. induction k as [|k IH]; intros q; cbn; [|rewrite IH]; reflexivity. Qed.

Lemma snapshots_first n (dx dt : A) k q :
  nth 0 (snapshots n dx dt k q) [] = q.
Proof. destruct k; reflexivity. Qed.

Lemma snapshots_later n (dx dt : A) k : forall q j,
  1 <= j <= k ->
  exists q', nth j (snapshots n dx dt k q) [] = next n dx dt q'.
Proof.
  induction k as [|k IH]; intros q j Hj; [lia|].
  destruct j as [|j]; [lia|]. cbn [snapshots nth].
  destruct j as [|j].
  - exists q. apply snapshots_first.
  - apply IH. lia.
Qed.

Lemma next_ghost n (dx dt : A) q : 5 <= n -> ghost n (next n dx dt q).
Proof. intros Hn. unfold next, next_c. now apply ghost_extend. Qed.

(** When the set-up raises nothing and the grid has n = m+4 entries, the
    script raises nothing later either: it returns the grid and the
    snapshots of as many time steps as [ticks] counts, or runs on. *)
Lemma program_run (c : config) (dx0 : A) (x0 : list A) (n fuel : nat) :
  fits (m c) = true -> pydiv one (ofZ (m c)) = Ok dx0 ->
  arange (div (mul (ofZ (-3)) dx0) (ofZ 2))
    (add one (div (mul (ofZ 5) dx0) (ofZ 2))) dx0 = Ok x0 ->
  length x0 = n -> Z.of_nat n = (m c + 4)%Z -> 5 <= n ->
  is_zero dx0 = false ->
  program c fuel
  = match ticks (mul (cfl c) dx0) (T c) fuel zero with
    | None => None
    | Some k =>
        Some (Ok (x0, snapshots n dx0 (mul (cfl c) dx0) k (map (q0 c) x0)))
    end.
Proof.
  intros Hfit Hdx Hx Hlen Hm Hn Hz. unfold program, setup, to_float.
  rewrite Hfit. cbn [bind].
  rewrite Hdx. cbn [bind]. rewrite Hx. cbn [bind]. unfold zeros.
  destruct (Z.ltb_spec (m c + 4) 0) as [Hneg|_]; [lia|]. cbn [bind].
  replace (Z.to_nat (m c + 4)) with n by lia.
  cbn [dx dt x init].
  match goal with
  | |- context [run _ _ _ _ ?s0] =>
      pose proof (@run_history A NumA n dx0 (mul (cfl c) dx0) (T c) Hn Hz
                    fuel s0 [] (map (q0 c) x0)) as R
  end.
  cbn [t] in R.
  destruct (ticks (mul (cfl c) dx0) (T c) fuel zero) as [k|].
  - destruct R as (s' & -> & Hh).
    + unfold shaped. cbn. rewrite length_map, repeat_length.
      repeat split; assumption || reflexivity.
    + unfold recorded. cbn. constructor; [lia|constructor].
    + reflexivity.
    + reflexivity.
    + rewrite Hh. reflexivity.
  - rewrite R; try reflexivity.
    + unfold shaped. cbn. rewrite length_map, repeat_length.
      repeat split; assumption || reflexivity.
    + unfold recorded. cbn. constructor; [lia|constructor].
Qed.

(* a time that does not advance never reaches T *)
Lemma ticks_stuck (dt T0 t0 : A) :
  add t0 dt = t0 -> ltb t0 T0 = true ->
  forall fuel, ticks dt T0 fuel t0 = None.
Proof.
  intros Hadd Hlt fuel. induction fuel as [|fuel IH]; [reflexivity|].
  cbn [ticks]. rewrite Hlt, Hadd, IH. reflexivity.
Qed.
End ProgramFacts.

(** ** Exact arithmetic: set-up and termination *)

Open Scope R_scope.

Lemma Ris_zero_false x : x <> 0 -> Ris_zero x = false.
Proof. intros H. unfold Ris_zero. destruct (Req_dec_T x 0); tauto. Qed.

Lemma Rltb_true x y : x < y -> Rltb x y = true.
Proof. intros H. unfold Rltb. destruct (Rlt_dec x y); tauto. Qed.

Lemma Rltb_false x y : ~ x < y -> Rltb x y = false.
Proof. intros H. unfold Rltb. destruct (Rlt_dec x y); tauto. Qed.

Lemma Rceil_IZR z : Rceil (IZR z) = Some z.
Proof.
  unfold Rceil. f_equal. rewrite <- opp_IZR.
  assert (E : (- z + 1)%Z = up (IZR (- z))).
  { apply tech_up; rewrite plus_IZR; lra. }
  rewrite <- E. lia.
Qed.

(* the loop makes exactly k passes when t + k*dt is the first such time
   not below T *)
Lemma ticks_R (dt T0 : R) k : forall fuel t0,
  (forall j, (j < k)%nat -> t0 + INR j * dt < T0) ->
  ~ t0 + INR k * dt < T0 -> (k < fuel)%nat ->
  ticks dt T0 fuel t0 = Some k.
Proof.
  induction k as [|k IH]; intros fuel t0 Hlt Hge Hf;
    (destruct fuel as [|fuel]; [lia|]); cbn [ticks ltb Num_R].
  - rewrite Rltb_false; [reflexivity|]. cbn [INR] in Hge. lra.
  - rewrite Rltb_true.
    + rewrite IH; [reflexivity| | |lia].
      * intros j Hj. specialize (Hlt (S j) ltac:(lia)).
        rewrite S_INR in Hlt. cbn [add Num_R]. lra.
      * rewrite S_INR in Hge. cbn [add Num_R]. lra.
    + specialize (Hlt 0%nat ltac:(lia)). cbn [INR] in Hlt. lra.
Qed.

(* with a positive time step the loop terminates *)
Lemma ticks_terminates (dt T0 : R) :
  0 < dt -> forall t0, exists k fuel, ticks dt T0 fuel t0 = Some k.
Proof.
  intros Hdt t0.
  destruct (INR_archimed dt (T0 - t0) Hdt) as [N HN].
  revert t0 HN. induction N as [|N IH]; intros t0 HN.
  - exists 0%nat, 1%nat. cbn [ticks ltb Num_R]. rewrite Rltb_false;
      [reflexivity|]. cbn [INR] in HN. lra.
  - destruct (Rlt_dec t0 T0) as [Hlt|Hge].
    + destruct (IH (t0 + dt)) as (k & fuel & E).
      { rewrite S_INR in HN. lra. }
      exists (S k), (S fuel). cbn [ticks ltb Num_R].
      rewrite Rltb_true by assumption. cbn [add Num_R]. rewrite E.
      reflexivity.
    + exists 0%nat, 1%nat. cbn [ticks ltb Num_R].
      now rewrite Rltb_false.
Qed.

Lemma IZR_pos_neq (z : Z) : (1 <= z)%Z -> IZR z <> 0.
Proof. intros H. apply IZR_le in H. lra. Qed.

Section ExactSetup.
Variable mz : Z.
Hypothesis Hm : (1 <= mz)%Z.

Local Abbreviation dx0 := (1 / IZR mz).
Local Abbreviation n0 := (Z.to_nat (mz + 4)).

Lemma dx0_pos : 0 < dx0.
Proof.
  apply IZR_le in Hm. apply Rdiv_lt_0_compat; lra.
Qed.

Lemma n0_ge : (5 <= n0)%nat.
Proof. lia. Qed.

Lemma INR_n0 : INR n0 = IZR mz + 4.
Proof. rewrite INR_IZR_INZ, Z2Nat.id, plus_IZR by lia. lra. Qed.

Lemma pydiv_R : pydiv one (ofZ mz) = Ok dx0.
Proof.
  unfold pydiv. cbn [is_zero ofZ Num_R].
  rewrite Ris_zero_false by now apply IZR_pos_neq. reflexivity.
Qed.

(* the grid: entry i is -3*dx/2 + i*dx, for i = 0 .. m+3 *)
Lemma arange_R :
  arange (div (mul (ofZ (-3)) dx0) (ofZ 2))
    (add one (div (mul (ofZ 5) dx0) (ofZ 2))) dx0
  = Ok (tab n0 (fun i => -3 * dx0 / 2 + INR i * dx0)).
Proof.
  unfold arange, one. cbn [ceil add sub mul div ofZ Num_R].
  replace ((1 + 5 * dx0 / 2 - -3 * dx0 / 2) / dx0) with (IZR (mz + 4)).
  - rewrite Rceil_IZR. f_equal. apply map_ext. intros i.
    destruct i as [|[|i]].
    + cbn [INR]. lra.
    + cbn [INR]. lra.
    + rewrite <- INR_IZR_INZ. lra.
  - rewrite plus_IZR. field. now apply IZR_pos_neq.
Qed.

Lemma setup_R (T0 cfl0 : R) (q : R -> R) :
  setup (mkConfig mz T0 cfl0 q)
  = Ok (mkSetting dx0 (cfl0 * dx0)
          (tab n0 (fun i => -3 * dx0 / 2 + INR i * dx0))
          (mkState 0 [map q (tab n0 (fun i => -3 * dx0 / 2 + INR i * dx0))]
             0 (repeat 0 n0) (repeat 0 n0) (repeat 0 n0) (repeat 0 n0)
             (repeat 0 n0) (repeat 0 n0) [0%nat])).
Proof.
  unfold setup, to_float. cbn [m cfl q0 fits Num_R bind].
  rewrite pydiv_R. cbn [bind].
  rewrite arange_R. cbn [bind]. unfold zeros.
  destruct (Z.ltb_spec (mz + 4) 0); [lia|]. reflexivity.
Qed.

Lemma program_R (T0 cfl0 : R) (q : R -> R) fuel :
  program (mkConfig mz T0 cfl0 q) fuel
  = match ticks (cfl0 * dx0) T0 fuel 0 with
    | None => None
    | Some k =>
        Some (Ok (tab n0 (fun i => -3 * dx0 / 2 + INR i * dx0),
                  snapshots n0 dx0 (cfl0 * dx0) k
                    (map q (tab n0 (fun i => -3 * dx0 / 2 + INR i * dx0)))))
    end.
Proof.
  apply (program_run (mkConfig mz T0 cfl0 q) fuel
           (eq_refl : @fits R Num_R mz = true) pydiv_R arange_R).
  - apply tab_length.
  - cbn [m]. lia.
  - exact n0_ge.
  - apply Ris_zero_false. pose proof dx0_pos. cbn [is_zero Num_R]. lra.
Qed.
End ExactSetup.

(** ** The grid *)

(** C7, as amended.  In exact arithmetic, for every positive cell count m
    the grid built with dx = 1/m has exactly m+4 coordinates, entry i being
    -3*dx/2 + i*dx: they increase strictly with constant spacing dx, the
    first is -3*dx/2 and the last is 1 + 3*dx/2; the first and the last
    interior cell centre, at the indices 2 and m+1, lie dx/2 inside the
    edges 0 and 1 of the domain, which leaves two ghost cells on each side;
    1 + 5*dx/2 is the stop value of the range, which every coordinate stays
    below. *)
Theorem grid_shape (mz : Z) (T0 cfl0 : R) (q : R -> R) :
  (1 <= mz)%Z ->
  exists st,
    setup (mkConfig mz T0 cfl0 q) = Ok st /\
    dx st = 1 / IZR mz /\
    length (x st) = Z.to_nat (mz + 4) /\
    (forall i, (i < length (x st))%nat ->
       get (x st) i = -3 * dx st / 2 + INR i * dx st) /\
    (forall i, (S i < length (x st))%nat ->
       get (x st) i < get (x st) (S i) /\
       get (x st) (S i) - get (x st) i = dx st) /\
    get (x st) 0 = -3 * dx st / 2 /\
    get (x st) (length (x st) - 1) = 1 + 3 * dx st / 2 /\
    get (x st) 2 = 0 + dx st / 2 /\
    get (x st) (length (x st) - 3) = 1 - dx st / 2 /\
    (forall i, (i < length (x st))%nat -> get (x st) i < 1 + 5 * dx st / 2).
Proof.
  intros Hm. rewrite (setup_R Hm). eexists. split; [reflexivity|].
  cbn [dx x]. rewrite tab_length.
  set (d := 1 / IZR mz). set (n := Z.to_nat (mz + 4)).
  assert (Hd : 0 < d) by exact (dx0_pos Hm).
  assert (Hn : (5 <= n)%nat) by exact (n0_ge Hm).
  assert (HI : INR n = IZR mz + 4) by exact (INR_n0 Hm).
  assert (Hmd : IZR mz * d = 1).
  { unfold d. field. now apply IZR_pos_neq. }
  split; [reflexivity|]. split; [reflexivity|]. split.
  { intros i Hi. now rewrite get_tab. }
  split.
  { intros i Hi. rewrite !get_tab by lia. rewrite S_INR. split; lra. }
  split.
  { rewrite get_tab by lia. cbn [INR]. lra. }
  split.
  { rewrite get_tab by lia. rewrite minus_INR by lia. cbn [INR].
    rewrite HI. nra. }
  split.
  { rewrite get_tab by lia. cbn [INR]. lra. }
  split.
  { rewrite get_tab by lia. rewrite minus_INR by lia. cbn [INR].
    rewrite HI. nra. }
  intros i Hi. rewrite get_tab by assumption.
  assert (Hle : INR i <= INR n - 1).
  { assert (Hi' : (S i <= n)%nat) by lia.
    apply le_INR in Hi'. rewrite S_INR in Hi'. lra. }
  rewrite HI in Hle. nra.
Qed.

Lemma grid_shape_witness :
  exists st,
    setup (mkConfig 100 (1 / 2) (4 / 10) gaussian) = Ok st /\
    dx st = 1 / IZR 100 /\
    length (x st) = Z.to_nat (100 + 4) /\
    (forall i, (i < length (x st))%nat ->
       get (x st) i = -3 * dx st / 2 + INR i * dx st) /\
    (forall i, (S i < length (x st))%nat ->
       get (x st) i < get (x st) (S i) /\
       get (x st) (S i) - get (x st) i = dx st) /\
    get (x st) 0 = -3 * dx st / 2 /\
    get (x st) (length (x st) - 1) = 1 + 3 * dx st / 2 /\
    get (x st) 2 = 0 + dx st / 2 /\
    get (x st) (length (x st) - 3) = 1 - dx st / 2 /\
    (forall i, (i < length (x st))%nat -> get (x st) i < 1 + 5 * dx st / 2).
Proof. apply (@grid_shape 100 (1 / 2) (4 / 10) gaussian). lia. Defined.

(** C7, as stated, fails in two ways.  By design: the range excludes its
    stop value, so for m = 1 (dx = 1) the last coordinate is 5/2 and none
    is the stated end 1 + 5*dx/2 = 7/2.  By rounding: in binary64 the
    quotient (stop - start)/dx that gives the length exceeds 15 for
    m = 11, and the grid has 16 coordinates, not m + 4 = 15; the first
    pass through the loop then raises ValueError because the work arrays
    have m + 4 entries. *)
Lemma grid_counterexample :
  (exists st : setting (A := R),
     setup (mkConfig 1 (1 / 2) (4 / 10) gaussian) = Ok st /\
     length (x st) = 5%nat /\
     get (x st) 4 = 5 / 2 /\ 1 + 5 * dx st / 2 = 7 / 2 /\
     forall i, (i < 5)%nat -> get (x st) i <> 1 + 5 * dx st / 2) /\
  (exists st : setting (A := float),
     setup (mkConfig 11 (tenths 5) (tenths 4) (fun v : float => v)) = Ok st /\
     length (x st) = 16%nat /\
     length (x st) <> Z.to_nat (11 + 4) /\
     program (mkConfig 11 (tenths 5) (tenths 4) (fun v : float => v)) 1
     = Some (Raise ValueError)).
Proof.
  split.
  - rewrite (@setup_R 1 ltac:(lia)). eexists. split; [reflexivity|].
    cbn [dx x]. change (Z.to_nat (1 + 4)) with 5%nat.
    split; [apply tab_length|].
    split; [rewrite get_tab by lia; cbn [INR]; lra|].
    split; [lra|].
    intros i Hi. rewrite get_tab by lia.
    assert (Hle : INR i <= 4).
    { assert (Hi' : (i <= 4)%nat) by lia. apply le_INR in Hi'.
      cbn [INR] in Hi'. lra. }
    lra.
  - eexists. split; [vm_compute; reflexivity|].
    split; [reflexivity|]. split; [vm_compute; discriminate|].
    vm_compute. reflexivity.
Qed.

(** ** Exact arithmetic: constant states *)

Section Constant.
Variables (n : nat) (dx dt c : R).
Hypothesis Hn : (5 <= n)%nat.
Variable q : nat -> R.
Hypothesis Hq : forall j, (j < n)%nat -> q j = c.

Lemma slope_c_const i : (1 <= i <= n - 2)%nat -> slope_c dx q i = 0.
Proof.
  intros Hi. unfold slope_c. rewrite !Hq by lia.
  cbn [sub div Num_R]. rewrite minmod1_opposite by lra.
  unfold Rdiv. lra.
Qed.

Lemma flux_c_const i : (2 <= i <= n - 2)%nat -> flux_c dx dt q i = f c.
Proof.
  intros Hi. unfold flux_c, qplus_at, qminus_at.
  rewrite !slope_c_const, !Hq by lia. rewrite lxf_R.
  cbn [sub add mul div ofZ Num_R two]. unfold Rdiv.
  replace (c - 0 * dx * / 2) with c by lra.
  replace (c + 0 * dx * / 2) with c by lra. lra.
Qed.

Lemma star_c_const i : (2 <= i <= n - 3)%nat -> star_c dx dt q i = c.
Proof.
  intros Hi. unfold star_c. rewrite !flux_c_const, Hq by lia.
  cbn [sub mul div Num_R]. lra.
Qed.
End Constant.

Lemma next_c_const (n : nat) (dx dt c : R) (q : nat -> R) :
  (5 <= n)%nat -> (forall j, (j < n)%nat -> q j = c) ->
  forall i, next_c n dx dt q i = c.
Proof.
  intros Hn Hq i. unfold next_c.
  assert (Hs : forall j, extend_at n (star_c dx dt q) j = c).
  { intros j. unfold extend_at.
    nat_cases; apply (@star_c_const n dx dt c Hn q Hq); lia. }
  assert (Hs' : forall j, (j < n)%nat -> extend_at n (star_c dx dt q) j = c)
    by (intros; apply Hs).
  unfold extend_at at 1.
  assert (Hnew : forall j, (2 <= j <= n - 3)%nat ->
            new_c dx dt q (extend_at n (star_c dx dt q)) j = c).
  { intros j Hj. unfold new_c.
    rewrite !(@flux_c_const n dx dt c Hn _ Hs') by lia.
    rewrite Hs, Hq by lia. unfold half. cbn [add sub mul div ofZ Num_R]. lra. }
  nat_cases; apply Hnew; lia.
Qed.

Lemma repeat_get (c : R) n j : (j < n)%nat -> get (repeat c n) j = c.
Proof. intros Hj. rewrite repeat_tab. now apply get_tab. Qed.

Lemma next_const (n : nat) (dx dt c : R) :
  (5 <= n)%nat -> next n dx dt (repeat c n) = repeat c n.
Proof.
  intros Hn. unfold next. rewrite (repeat_tab c n) at 2.
  apply tab_ext. intros i Hi. apply next_c_const; [exact Hn|].
  intros j Hj. now apply repeat_get.
Qed.


Section FlatGeneric.
Context {A : Type} `{NumA : Num A}.
Variables (n : nat) (dx dt c : A).
Hypothesis Hn : (5 <= n)%nat.
Variable q : nat -> A.
Hypothesis Hq : forall j, (j < n)%nat -> q j = c.



End FlatGeneric.






(* in binary64, on the reference run, the constants 0.5 and 0.3 are kept:
   all 126 snapshots are the constant array *)
Example binary64_constant_run :
  forall c : float, c = tenths 5 \/ c = tenths 3 ->
  flat_next dx_ref (mul (tenths 4) dx_ref) c = c /\
  exists x hist,
    program (reference (fun _ => c)) 126 = Some (Ok (x, hist)) /\
    hist = repeat (repeat c 104) 126.
Proof.
  intros c [-> | ->]; (split; [vm_compute; reflexivity|]);
    do 2 eexists; split; try (vm_compute; reflexivity); reflexivity.
Qed.


(** ** The reference run *)

Close Scope R_scope.

Lemma ticks_more {A : Type} `{NumA : Num A} (dt T0 : A) fuel : forall t0 k,
  ticks dt T0 fuel t0 = Some k ->
  forall fuel', fuel <= fuel' -> ticks dt T0 fuel' t0 = Some k.
Proof.
  induction fuel as [|fuel IH]; intros t0 k E fuel' Hf; [discriminate|].
  destruct fuel' as [|fuel']; [lia|]. cbn [ticks] in E |- *.
  destruct (ltb t0 T0); [|exact E].
  destruct (ticks dt T0 fuel (add t0 dt)) as [k'|] eqn:E'; [|discriminate].
  rewrite (IH _ _ E' fuel') by lia. exact E.
Qed.

Open Scope R_scope.

Lemma reference_ticks_float :
  ticks (mul (tenths 4) dx_ref) (tenths 5) 126 (zero : float) = Some 125%nat.
Proof. vm_compute. reflexivity. Qed.

Lemma reference_ticks_R :
  ticks (tenths 4 * (1 / IZR 100)) (tenths 5) 126 (0 : R) = Some 125%nat.
Proof.
  apply ticks_R; [| |lia].
  - intros j Hj. assert (Hj' : (j <= 124)%nat) by lia.
    apply le_INR in Hj'. rewrite (INR_IZR_INZ 124) in Hj'.
    change (IZR (Z.of_nat 124)) with 124 in Hj'.
    unfold tenths. cbn [div ofZ Num_R]. lra.
  - rewrite (INR_IZR_INZ 125). change (IZR (Z.of_nat 125)) with 125.
    unfold tenths. cbn [div ofZ Num_R]. lra.
Qed.

(** C6.  With m = 100, T = 0.5 and dt = 0.4*dx the loop terminates after
    125 passes, at the first time that is not below T, and the history then
    holds 126 = T/dt + 1 snapshots, the first of which is the initial array.
    In binary64, the arithmetic of the script, this holds for every initial
    profile (the loop count reads only t, dt and T); in exact arithmetic it
    is stated for the Gaussian 0.9*exp(-100*(x-0.5)^2).  In both, T/dt is
    125. *)
Theorem reference_run :
  (forall q : float -> float,
     exists x hist,
       (forall fuel, (126 <= fuel)%nat ->
          program (reference q) fuel = Some (Ok (x, hist))) /\
       length x = 104%nat /\ length hist = 126%nat /\
       nth 0 hist [] = map q x /\
       PrimFloat.eqb (div (tenths 5) (mul (tenths 4) dx_ref)) (ofZ 125)
       = true) /\
  (exists x hist,
     (forall fuel, (126 <= fuel)%nat ->
        program (reference gaussian) fuel = Some (Ok (x, hist))) /\
     length x = 104%nat /\ length hist = 126%nat /\
     nth 0 hist [] = map gaussian x /\
     (tenths 5 : R) / (tenths 4 * (1 / IZR 100)) = 125).
Proof.
  split.
  - intros q. do 2 eexists. split; [|split; [|split; [|split]]].
    + intros fuel Hf.
      rewrite (@program_run float Num_float (reference q) dx_ref x_ref 104
                 fuel);
        [|reflexivity|reflexivity|reflexivity|reflexivity|reflexivity|lia|reflexivity].
      cbn [cfl T reference].
      rewrite (@ticks_more _ _ _ _ _ _ _ reference_ticks_float _ Hf). reflexivity.
    + reflexivity.
    + apply snapshots_length.
    + apply snapshots_first.
    + reflexivity.
  - do 2 eexists. split; [|split; [|split; [|split]]].
    + intros fuel Hf. unfold reference.
      rewrite (@program_R 100 ltac:(lia)).
      rewrite (@ticks_more _ _ _ _ _ _ _ reference_ticks_R _ Hf). reflexivity.
    + apply tab_length.
    + apply snapshots_length.
    + apply snapshots_first.
    + unfold tenths. cbn [div ofZ Num_R]. lra.
Qed.

(** ** Ghost cells *)

Lemma gaussian_inj (u v : R) :
  gaussian u = gaussian v -> (u - 1 / 2) ^ 2 = (v - 1 / 2) ^ 2.
Proof.
  unfold gaussian, tenths. cbn [div ofZ Num_R]. intros E.
  assert (E' : exp (-100 * (u - 5 / 10) ^ 2) = exp (-100 * (v - 5 / 10) ^ 2))
    by lra.
  apply exp_inv in E'. lra.
Qed.

(** C10.  For every positive cell count, positive factor in dt and initial
    profile q, in exact arithmetic, the script terminates and every
    snapshot recorded after the initial one has its two ghost entries on
    each side equal to the adjacent interior entry.  The initial snapshot is
    the profile evaluated at every grid coordinate, ghost coordinates
    included, with no boundary extension; it satisfies the ghost-cell
    equalities only if the profile happens to take equal values there, and
    for the Gaussian of the script it does not.  The equalities of the later
    snapshots come from copying entries, and hold in binary64 as well: the
    last part states them for the reference run of the script with any
    initial profile. *)
Theorem ghost_cells (mz : Z) (T0 cfl0 : R) (q : R -> R) :
  (1 <= mz)%Z -> 0 < cfl0 ->
  let n := Z.to_nat (mz + 4) in
  exists fuel x hist,
    program (mkConfig mz T0 cfl0 q) fuel = Some (Ok (x, hist)) /\
    length x = n /\
    nth 0 hist [] = map q x /\
    (forall i, (i < n)%nat -> get (nth 0 hist []) i = q (get x i)) /\
    (forall k, (1 <= k < length hist)%nat -> ghost n (nth k hist [])) /\
    ((forall v, q v = gaussian v) -> ~ ghost n (nth 0 hist [])) /\
    (forall qf : float -> float,
       exists xf histf,
         program (reference qf) 126 = Some (Ok (xf, histf)) /\
         nth 0 histf [] = map qf xf /\
         forall k, (1 <= k < length histf)%nat ->
                   ghost 104 (nth k histf [])).
Proof.
  intros Hm Hcfl n.
  assert (Hn : (5 <= n)%nat) by exact (n0_ge Hm).
  assert (Hdx : 0 < 1 / IZR mz) by exact (dx0_pos Hm).
  assert (Hdt : 0 < cfl0 * (1 / IZR mz)) by nra.
  destruct (ticks_terminates T0 Hdt 0) as (k & fuel & E).
  exists fuel. rewrite (program_R Hm). fold n. rewrite E.
  do 2 eexists. split; [reflexivity|].
  rewrite snapshots_first, map_tab.
  split; [apply tab_length|]. split; [reflexivity|].
  split; [|split; [|split]].
  - intros i Hi. now rewrite !get_tab.
  - intros j Hj. rewrite snapshots_length in Hj.
    destruct (@snapshots_later R Num_R n (1 / IZR mz) (cfl0 * (1 / IZR mz))
                k (tab n (fun i => q (-3 * (1 / IZR mz) / 2
                                      + INR i * (1 / IZR mz)))) j)
      as (q' & Eq); [lia|].
    rewrite Eq. now apply next_ghost.
  - intros Hq (G0 & _). rewrite !get_tab in G0 by lia.
    rewrite !Hq in G0. apply gaussian_inj in G0. cbn [INR] in G0.
    set (d := 1 / IZR mz) in *. nra.
  - intros qf. do 2 eexists. split; [|split].
    + rewrite (@program_run float Num_float (reference qf) dx_ref x_ref 104
                 126);
        [|reflexivity|reflexivity|reflexivity|reflexivity|reflexivity|lia|reflexivity].
      cbn [cfl T q0 reference]. rewrite reference_ticks_float. reflexivity.
    + apply snapshots_first.
    + intros j Hj. rewrite snapshots_length in Hj.
      destruct (@snapshots_later float Num_float 104 dx_ref
                  (mul (tenths 4) dx_ref) 125 (map qf x_ref) j)
        as (q' & Eq); [lia|].
      rewrite Eq. apply next_ghost. lia.
Qed.

Lemma ghost_cells_witness :
  let n := Z.to_nat (100 + 4) in
  exists fuel x hist,
    program (mkConfig 100 (1 / 2) (4 / 10) gaussian) fuel
    = Some (Ok (x, hist)) /\
    length x = n /\
    nth 0 hist [] = map gaussian x /\
    (forall i, (i < n)%nat -> get (nth 0 hist []) i = gaussian (get x i)) /\
    (forall k, (1 <= k < length hist)%nat -> ghost n (nth k hist [])) /\
    ((forall v, gaussian v = gaussian v) -> ~ ghost n (nth 0 hist [])) /\
    (forall qf : float -> float,
       exists xf histf,
         program (reference qf) 126 = Some (Ok (xf, histf)) /\
         nth 0 histf [] = map qf xf /\
         forall k, (1 <= k < length histf)%nat ->
                   ghost 104 (nth k histf [])).
Proof. apply (@ghost_cells 100 (1 / 2) (4 / 10) gaussian); [lia|lra]. Defined.

(** ** Exact arithmetic: conservation *)

Lemma sum_app (l1 l2 : list R) :
  fold_right Rplus 0 (l1 ++ l2) = fold_right Rplus 0 l1 + fold_right Rplus 0 l2.
Proof. induction l1 as [|v l1 IH]; cbn; [|rewrite IH]; lra. Qed.

Lemma sum_tab_S k (g : nat -> R) :
  fold_right Rplus 0 (tab (S k) g) = fold_right Rplus 0 (tab k g) + g k.
Proof.
  replace (S k) with (k + 1)%nat by lia.
  rewrite <- tab_app, sum_app. cbn. rewrite Nat.add_0_r. lra.
Qed.

(* the flux differences telescope *)
Lemma sum_star (dx r : R) (q Fl : nat -> R) a k :
  fold_right Rplus 0
    (tab k (fun j => (q (a + j)%nat
                      - r * (Fl (a + j + 1)%nat - Fl (a + j)%nat)) * dx))
  = fold_right Rplus 0 (tab k (fun j => q (a + j)%nat * dx))
    - r * (Fl (a + k)%nat - Fl a) * dx.
Proof.
  induction k as [|k IH].
  - cbn. rewrite Nat.add_0_r. lra.
  - rewrite !sum_tab_S, IH.
    replace (a + S k)%nat with (a + k + 1)%nat by lia. lra.
Qed.

Lemma sum_new (dx r : R) (q qs Fl : nat -> R) a k :
  fold_right Rplus 0
    (tab k (fun j =>
              (1 / 2 * q (a + j)%nat
               + 1 / 2 * (qs (a + j)%nat
                          - r * (Fl (a + j + 1)%nat - Fl (a + j)%nat))) * dx))
  = 1 / 2 * fold_right Rplus 0 (tab k (fun j => q (a + j)%nat * dx))
    + 1 / 2 * (fold_right Rplus 0 (tab k (fun j => qs (a + j)%nat * dx))
               - r * (Fl (a + k)%nat - Fl a) * dx).
Proof.
  induction k as [|k IH].
  - cbn. rewrite Nat.add_0_r. lra.
  - rewrite !sum_tab_S, IH.
    replace (a + S k)%nat with (a + k + 1)%nat by lia. lra.
Qed.

Lemma total_tab (n : nat) (dx : R) (g : nat -> R) :
  (5 <= n)%nat ->
  total dx (tab n g)
  = fold_right Rplus 0 (tab (n - 4) (fun j => g (2 + j)%nat * dx)).
Proof.
  intros Hn. unfold total. rewrite slice_2_m2 by exact Hn.
  rewrite map_tab. reflexivity.
Qed.

(** C5, as amended.  In exact arithmetic, with dx > 0 and arrays of
    n = m+4 >= 5 entries: for a time step whose numerical fluxes at the two
    interfaces at the edges of the physical domain (indices 2 and m+2) are
    zero in the predictor and in the corrector stage, the sum of Q[i]*dx
    over the interior cells 2 .. m+1 is the same after the step as before
    it.  (In binary64 the fluxes cancel up to rounding only.) *)
Theorem conservation (n : nat) (dx dt : R) (s s1 s2 s' : state) :
  (5 <= n)%nat -> 0 < dx -> shaped n s ->
  predictor dx dt s = Ok s1 -> corrector dx dt s1 = Ok s2 ->
  advance dt s2 = Ok s' ->
  get (F s1) 2 = 0 -> get (F s1) (n - 2) = 0 ->
  get (F s2) 2 = 0 -> get (F s2) (n - 2) = 0 ->
  total dx (load (heap s') (Q s')) = total dx (load (heap s) (Q s)).
Proof.
  intros Hn Hdx (HQ & Hq & Hs & Hp & Hm & HF) E1 E2 E3.
  assert (Hz : is_zero dx = false).
  { apply Ris_zero_false. lra. }
  apply as_tab in HQ, Hq, Hs, Hp, Hm, HF; try exact Hn.
  rewrite (@predictor_tab R Num_R n dx dt Hn Hz _ _ _ _ _ s HQ Hs Hp Hm HF)
    in E1.
  injection E1 as <-.
  match type of E2 with
  | corrector _ _ ?s1 = _ =>
      rewrite (@corrector_tab R Num_R n dx dt Hn Hz
                 (get (load (heap s) (Q s))) _ (get (Qnew s)) _ _ _ s1
                 HQ eq_refl Hq eq_refl eq_refl eq_refl) in E2
  end.
  injection E2 as <-.
  match type of E3 with
  | advance _ ?s2 = _ =>
      rewrite (@advance_tab R Num_R n dt Hn _ s2 eq_refl) in E3
  end.
  injection E3 as <-.
  cbn [F heap Q]. rewrite load_alloc.
  set (q := get (load (heap s) (Q s))) in *. rewrite HQ.
  set (F1 := stage_flux n dx dt q (get (dQplus s)) (get (dQminus s))
               (get (F s))).
  set (qs := extend_at n (star_at n dx dt q F1 (get (Qstar s)))).
  set (F2 := stage_flux n dx dt qs (dQplus_new n q (get (dQplus s)))
               (dQminus_new q (get (dQminus s))) F1).
  rewrite !get_tab by lia. intros A1 B1 A2 B2.
  rewrite !total_tab by exact Hn.
  rewrite tab_ext with
    (h := fun j =>
            (1 / 2 * q (2 + j)%nat
             + 1 / 2 * (qs (2 + j)%nat
                        - dt / dx * (F2 (2 + j + 1)%nat - F2 (2 + j)%nat)))
            * dx).
  2:{ intros j Hj. rewrite extend_at_interior by lia.
      unfold new_at. nat_cases. reflexivity. }
  rewrite sum_new.
  rewrite tab_ext with
    (g := fun j => qs (2 + j)%nat * dx)
    (h := fun j =>
            (q (2 + j)%nat
             - dt / dx * (F1 (2 + j + 1)%nat - F1 (2 + j)%nat)) * dx).
  2:{ intros j Hj. unfold qs. rewrite extend_at_interior by lia.
      unfold star_at. nat_cases. reflexivity. }
  rewrite sum_star.
  replace (2 + (n - 4))%nat with (n - 2)%nat by lia.
  rewrite A1, B1, A2, B2. lra.
Qed.


(** ** Zero steps *)

Lemma setup_m0 {A : Type} `{NumA : Num A} (T0 cfl0 : A) (q : A -> A) :
  fits 0 = true -> is_zero (ofZ 0 : A) = true ->
  setup (mkConfig 0 T0 cfl0 q) = Raise ZeroDivisionError.
Proof.
  intros Hf H. unfold setup, to_float, pydiv. cbn [m]. rewrite Hf.
  cbn [bind]. now rewrite H.
Qed.

(** C9, as amended.  The script checks neither dx nor dt.  With m = 0 its
    set-up stops at dx = 1./m with Python's ZeroDivisionError, in exact
    arithmetic and in binary64.  A zero dt is not detected.  In exact
    arithmetic, for every m >= 1 the set-up succeeds with dx = 1/m, which
    is not zero, and dt = factor * dx, whatever the factor, a factor 0 that
    makes dt zero included; with dt = 0 and T > 0 the loop then raises
    nothing and never terminates.  In binary64, with the script's m = 100,
    the factor 0, any T > 0 and any initial profile, dt is zero and the
    script neither raises nor terminates. *)
Theorem setup_checks (mz : Z) (T0 cfl0 : R) (q : R -> R) :
  (1 <= mz)%Z -> 0 < T0 ->
  setup (mkConfig 0 T0 cfl0 q) = Raise ZeroDivisionError /\
  (forall (T1 cfl1 : float) (q1 : float -> float),
     setup (mkConfig 0 T1 cfl1 q1) = Raise ZeroDivisionError) /\
  (exists st,
     setup (mkConfig mz T0 cfl0 q) = Ok st /\
     dx st = 1 / IZR mz /\ dx st <> 0 /\ dt st = cfl0 * dx st) /\
  (exists st, setup (mkConfig mz T0 0 q) = Ok st /\ dt st = 0) /\
  (forall fuel, program (mkConfig mz T0 0 q) fuel = None) /\
  (forall (T1 : float) (q1 : float -> float),
     ltb zero T1 = true ->
     is_zero (mul zero dx_ref) = true /\
     forall fuel, program (mkConfig 100 T1 zero q1) fuel = None).
Proof.
  intros Hm HT.
  assert (Hdx : 0 < 1 / IZR mz) by exact (dx0_pos Hm).
  split; [|split; [|split; [|split; [|split]]]].
  - apply setup_m0; [reflexivity|]. cbn [is_zero ofZ Num_R]. unfold Ris_zero.
    destruct (Req_dec_T 0 0); [reflexivity|lra].
  - intros T1 cfl1 q1. apply setup_m0; reflexivity.
  - rewrite (setup_R Hm). eexists. split; [reflexivity|]. cbn [dx dt].
    repeat split; lra.
  - rewrite (setup_R Hm). eexists. split; [reflexivity|]. cbn [dt]. lra.
  - intros fuel. rewrite (program_R Hm).
    rewrite ticks_stuck; [reflexivity| |].
    + cbn [add Num_R]. lra.
    + cbn [ltb Num_R]. apply Rltb_true. exact HT.
  - intros T1 q1 HT1. split; [reflexivity|]. intros fuel.
    rewrite (@program_run float Num_float (mkConfig 100 T1 zero q1) dx_ref
               x_ref 104 fuel);
      [|reflexivity|reflexivity|reflexivity|reflexivity|reflexivity|lia
       |reflexivity].
    cbn [cfl T]. rewrite ticks_stuck; [reflexivity|reflexivity|exact HT1].
Qed.

Lemma setup_checks_witness :
  setup (mkConfig 0 (1 / 2) (4 / 10) gaussian) = Raise ZeroDivisionError /\
  (forall (T1 cfl1 : float) (q1 : float -> float),
     setup (mkConfig 0 T1 cfl1 q1) = Raise ZeroDivisionError) /\
  (exists st,
     setup (mkConfig 100 (1 / 2) (4 / 10) gaussian) = Ok st /\
     dx st = 1 / IZR 100 /\ dx st <> 0 /\ dt st = 4 / 10 * dx st) /\
  (exists st, setup (mkConfig 100 (1 / 2) 0 gaussian) = Ok st /\ dt st = 0) /\
  (forall fuel, program (mkConfig 100 (1 / 2) 0 gaussian) fuel = None) /\
  (forall (T1 : float) (q1 : float -> float),
     ltb zero T1 = true ->
     is_zero (mul zero dx_ref) = true /\
     forall fuel, program (mkConfig 100 T1 zero q1) fuel = None).
Proof. apply (@setup_checks 100 (1 / 2) (4 / 10) gaussian); [lia|lra]. Defined.

(** C9, as stated, fails: the script of the reference run with the factor
    in dt set to 0 (binary64, a bump as initial profile) passes its set-up
    with dt = 0 and dx nonzero; the first pass through the loop raises
    nothing and leaves nan in every entry of Q; the loop never returns. *)
Lemma zero_dt_counterexample :
  let c := mkConfig 100 (tenths 5) (zero : float) bump in
  exists st,
    setup c = Ok st /\
    is_zero (dt st) = true /\ is_zero (dx st) = false /\
    (exists s1,
       step (dx st) (dt st) (init st) = Ok s1 /\
       forallb PrimFloat.is_nan (load (heap s1) (Q s1)) = true) /\
    (forall fuel, program c fuel = None).
Proof.
  intros c. eexists. split; [vm_compute; reflexivity|].
  split; [reflexivity|]. split; [reflexivity|]. split.
  - eexists. split; [vm_compute; reflexivity|]. vm_compute. reflexivity.
  - intros fuel.
    rewrite (@program_run float Num_float c dx_ref x_ref 104 fuel);
      [|reflexivity|reflexivity|reflexivity|reflexivity|reflexivity|lia|reflexivity].
    rewrite ticks_stuck; reflexivity.
Qed.

(* the conversion of m in dx = 1./m, in binary64: exact up to 2^53, to the
   nearest number beyond (2^63 is not taken modulo anything), and an
   OverflowError that stops the set-up from 2^1024 on *)
Example int_conversion_binary64 :
  PrimFloat.eqb (ofZ (2 ^ 63)) 0x1p63%float = true /\
  (ofZ (2 ^ 53 + 1) : float) = ofZ (2 ^ 53) /\
  is_zero (div one (ofZ (2 ^ 63)) : float) = false /\
  forall (T1 cfl1 : float) (q1 : float -> float),
    setup (mkConfig (2 ^ 1024) T1 cfl1 q1) = Raise OverflowError.
Proof.
  split; [vm_compute; reflexivity|]. split; [vm_compute; reflexivity|].
  split; [vm_compute; reflexivity|].
  intros T1 cfl1 q1. unfold setup, to_float. cbn [m].
  replace (fits (2 ^ 1024)) with false by (vm_compute; reflexivity).
  reflexivity.
Qed.

(** ** Symmetry *)

Lemma slope_c_zero (dx : R) (q : nat -> R) i :
  (q (i + 1)%nat - q i) * (q i - q (i - 1)%nat) <= 0 -> slope_c dx q i = 0.
Proof.
  intros H. unfold slope_c. cbn [sub div Num_R].
  rewrite minmod1_opposite by exact H. unfold Rdiv. lra.
Qed.

(* the flux between two cells whose slopes are zero *)
Lemma flux_c_flat (dx dt : R) (q : nat -> R) i a b al :
  slope_c dx q i = 0 -> slope_c dx q (i - 1) = 0 ->
  q i = a -> q (i - 1)%nat = b ->
  Rmax (Rabs (1 - 2 * a)) (Rabs (1 - 2 * b)) = al ->
  flux_c dx dt q i = 0.5 * (a * (1 - a) + b * (1 - b) - al * (dx / dt) * (a - b)).
Proof.
  intros S1 S2 Ha Hb Hal. unfold flux_c, qplus_at, qminus_at.
  rewrite S1, S2, Ha, Hb. cbn [sub add mul div Num_R two ofZ].
  replace (a - 0 * dx / 2) with a by lra.
  replace (b + 0 * dx / 2) with b by lra.
  rewrite lxf_R, Hal, !f_R. reflexivity.
Qed.

Ltac Rcases :=
  unfold Rmax, Rabs;
  repeat match goal with
    | |- context [Rcase_abs ?a] => destruct (Rcase_abs a)
    end;
  repeat match goal with
    | |- context [Rle_dec ?a ?b] => destruct (Rle_dec a b)
    end; lra.

(* one time step from the mirror-symmetric array 0, 0, 1/2, 1/2, 0, 0 *)
Lemma bump_step_R :
  let q := [0; 0; 1 / 2; 1 / 2; 0; 0] in
  next 6 (1 / 2) (1 / 5) q
  = [9 / 25; 9 / 25; 9 / 25; 19 / 50; 19 / 50; 19 / 50].
Proof.
  intros q0. set (dx := 1 / 2). set (dt := 1 / 5).
  set (q := get q0).
  assert (S1 : forall i, (1 <= i <= 4)%nat -> slope_c dx q i = 0).
  { intros i Hi. apply slope_c_zero.
    destruct i as [|[|[|[|[|i]]]]]; try lia; unfold q, q0, get;
      cbn [nth Nat.add Nat.sub]; cbn [zero ofZ Num_R]; lra. }
  assert (F2 : flux_c dx dt q 2 = - (1 / 2)).
  { rewrite (@flux_c_flat dx dt q 2 (1 / 2) 0 1); try reflexivity;
      try (apply S1; cbn; lia); [unfold dx, dt; lra|Rcases]. }
  assert (F3 : flux_c dx dt q 3 = 1 / 4).
  { rewrite (@flux_c_flat dx dt q 3 (1 / 2) (1 / 2) 0); try reflexivity;
      try (apply S1; cbn; lia); [unfold dx, dt; lra|Rcases]. }
  assert (F4 : flux_c dx dt q 4 = 3 / 4).
  { rewrite (@flux_c_flat dx dt q 4 0 (1 / 2) 1); try reflexivity;
      try (apply S1; cbn; lia); [unfold dx, dt; lra|Rcases]. }
  set (qs := extend_at 6 (star_c dx dt q)).
  assert (Q2 : forall i, (i <= 2)%nat -> qs i = 1 / 5).
  { intros i Hi. unfold qs, extend_at.
    assert (E : star_c dx dt q 2 = 1 / 5).
    { unfold star_c. cbn [Nat.add]. rewrite F2, F3.
      unfold q, q0, get, dx, dt. cbn [nth sub mul div Num_R]. lra. }
    nat_cases; [exact E|]. replace i with 2%nat by lia. exact E. }
  assert (Q3 : forall i, (3 <= i)%nat -> qs i = 3 / 10).
  { intros i Hi. unfold qs, extend_at.
    assert (E : star_c dx dt q 3 = 3 / 10).
    { unfold star_c. cbn [Nat.add]. rewrite F3, F4.
      unfold q, q0, get, dx, dt. cbn [nth sub mul div Num_R]. lra. }
    nat_cases; [exact E|]. replace i with 3%nat by lia. exact E. }
  assert (S2 : forall i, (1 <= i <= 4)%nat -> slope_c dx qs i = 0).
  { intros i Hi. apply slope_c_zero.
    destruct i as [|[|[|[|[|i]]]]]; try lia; cbn [Nat.add Nat.sub];
      rewrite ?(Q2 0%nat), ?(Q2 1%nat), ?(Q2 2%nat), ?(Q3 3%nat),
        ?(Q3 4%nat), ?(Q3 5%nat) by lia; lra. }
  assert (G2 : flux_c dx dt qs 2 = 4 / 25).
  { rewrite (@flux_c_flat dx dt qs 2 (1 / 5) (1 / 5) (3 / 5));
      try (apply S2; cbn; lia); try (apply Q2; cbn; lia);
      [unfold dx, dt; lra|Rcases]. }
  assert (G3 : flux_c dx dt qs 3 = 11 / 100).
  { rewrite (@flux_c_flat dx dt qs 3 (3 / 10) (1 / 5) (3 / 5));
      try (apply S2; cbn; lia); try (apply Q2; cbn; lia);
      try (apply Q3; cbn; lia); [unfold dx, dt; lra|Rcases]. }
  assert (G4 : flux_c dx dt qs 4 = 21 / 100).
  { rewrite (@flux_c_flat dx dt qs 4 (3 / 10) (3 / 10) (2 / 5));
      try (apply S2; cbn; lia); try (apply Q3; cbn; lia);
      [unfold dx, dt; lra|Rcases]. }
  assert (N2 : new_c dx dt q qs 2 = 9 / 25).
  { unfold new_c. cbn [Nat.add]. rewrite G2, G3, Q2 by lia.
    unfold q, q0, get, dx, dt, half. cbn [nth add sub mul div ofZ Num_R]. lra. }
  assert (N3 : new_c dx dt q qs 3 = 19 / 50).
  { unfold new_c. cbn [Nat.add]. rewrite G3, G4, Q3 by lia.
    unfold q, q0, get, dx, dt, half. cbn [nth add sub mul div ofZ Num_R]. lra. }
  unfold next, next_c. fold q qs. cbn [tab seq map].
  unfold extend_at. cbn [Nat.ltb Nat.leb Nat.sub].
  rewrite N2, N3. reflexivity.
Qed.

(** C8, as stated, fails.  In exact arithmetic, one time step (m = 2,
    dx = 1/2, dt = 0.4*dx = 1/5) takes the mirror-symmetric array
    0, 0, 1/2, 1/2, 0, 0 to 9/25, 9/25, 9/25, 19/50, 19/50, 19/50, which is
    not mirror-symmetric.  The script itself, in binary64 with m = 2,
    T = 0.5, dt = 0.4*dx and that bump as initial profile, records a first
    snapshot that is mirror-symmetric and a second one whose mirrored
    interior entries differ by more than 0.01. *)
Lemma symmetry_counterexample :
  (let q := [0; 0; 1 / 2; 1 / 2; 0; 0] in
   mirror_sym 6 q /\
   exists s',
     step (1 / 2) (1 / 5) (small_state q) = Ok s' /\
     load (heap s') (Q s')
     = [9 / 25; 9 / 25; 9 / 25; 19 / 50; 19 / 50; 19 / 50] /\
     ~ mirror_sym 6 (load (heap s') (Q s'))) /\
  (exists x hist,
     program (mkConfig 2 (tenths 5) (tenths 4) (bump (A := float))) 10
     = Some (Ok (x, hist)) /\
     mirror_sym 6 (nth 0 hist []) /\
     ~ mirror_sym 6 (nth 1 hist []) /\
     PrimFloat.ltb (PrimFloat.add (get (nth 1 hist []) 2) (div one (ofZ 100)))
       (get (nth 1 hist []) 3) = true).
Proof.
  split.
  - intros q. split.
    + intros i Hi. do 6 (destruct i as [|i]; [reflexivity|]). lia.
    + assert (Hz : is_zero (1 / 2 : R) = false).
      { apply Ris_zero_false. lra. }
      destruct (@step_ok R Num_R 6 (1 / 2) (1 / 5) ltac:(lia) Hz
                  (small_state q))
        as (s' & E & _ & _ & Hh & HQ & _).
      { repeat split; reflexivity. }
      exists s'. split; [exact E|].
      assert (L : load (heap s') (Q s')
                  = [9 / 25; 9 / 25; 9 / 25; 19 / 50; 19 / 50; 19 / 50]).
      { rewrite Hh, HQ, load_alloc. exact bump_step_R. }
      split; [exact L|]. rewrite L. intros H.
      specialize (H 2%nat ltac:(lia)). unfold get in H. cbn in H. lra.
  - do 2 eexists. split; [vm_compute; reflexivity|]. split; [|split].
    + intros i Hi. do 6 (destruct i as [|i]; [reflexivity|]). lia.
    + intros H. specialize (H 2%nat ltac:(lia)). unfold get in H.
      cbn [nth Nat.sub] in H.
      apply (f_equal (fun v => PrimFloat.ltb v (div (ofZ 37) (ofZ 100)))) in H.
      vm_compute in H. discriminate.
    + vm_compute. reflexivity.
Qed.

(** The part of the symmetry that the scheme keeps: the mirror image
    composed with q -> 1 - q, under which the flux q*(1-q) is invariant. *)

Lemma lxf_flip (dx dt a b : R) : lxf dx dt (1 - b) (1 - a) = lxf dx dt a b.
Proof.
  rewrite !lxf_R, !f_R.
  replace (1 - 2 * (1 - b)) with (- (1 - 2 * b)) by lra.
  replace (1 - 2 * (1 - a)) with (- (1 - 2 * a)) by lra.
  rewrite !Rabs_Ropp, (Rmax_comm (Rabs (1 - 2 * b))).
  set (M := Rmax _ _). set (d := dx / dt). lra.
Qed.

Section PointSymmetry.
Variables (n : nat) (dx dt : R).
Hypothesis Hn : (5 <= n)%nat.
Variable a : nat -> R.
Hypothesis Ha : point_symf n a.

Lemma point_at j : (j < n)%nat -> a j = 1 - a (n - 1 - j)%nat.
Proof. exact (@Ha j). Qed.

Lemma slope_c_point i :
  (1 <= i <= n - 2)%nat -> slope_c dx a i = slope_c dx a (n - 1 - i).
Proof.
  intros Hi. unfold slope_c. cbn [sub div Num_R].
  rewrite (@point_at (i + 1)), (@point_at i), (@point_at (i - 1)) by lia.
  replace (n - 1 - (i + 1))%nat with (n - 1 - i - 1)%nat by lia.
  replace (n - 1 - (i - 1))%nat with (n - 1 - i + 1)%nat by lia.
  set (k := (n - 1 - i)%nat).
  replace (1 - a (k - 1)%nat - (1 - a k)) with (a k - a (k - 1)%nat) by lra.
  replace (1 - a k - (1 - a (k + 1)%nat)) with (a (k + 1)%nat - a k) by lra.
  now rewrite minmod1_sym.
Qed.

Lemma flux_c_point i :
  (2 <= i <= n - 2)%nat -> flux_c dx dt a i = flux_c dx dt a (n - i).
Proof.
  intros Hi. unfold flux_c.
  assert (Ep : qplus_at dx a (slope_c dx a) i
               = 1 - qminus_at dx a (slope_c dx a) (n - i)).
  { unfold qplus_at, qminus_at. cbn [sub add mul div Num_R].
    rewrite (@point_at i), (@slope_c_point i) by lia.
    replace (n - i - 1)%nat with (n - 1 - i)%nat by lia. lra. }
  assert (Em : qminus_at dx a (slope_c dx a) i
               = 1 - qplus_at dx a (slope_c dx a) (n - i)).
  { unfold qplus_at, qminus_at. cbn [sub add mul div Num_R].
    rewrite (@point_at (i - 1)), (@slope_c_point (i - 1)) by lia.
    replace (n - 1 - (i - 1))%nat with (n - i)%nat by lia. lra. }
  rewrite Ep, Em. apply lxf_flip.
Qed.

Lemma star_c_point i :
  (2 <= i <= n - 3)%nat ->
  star_c dx dt a i = 1 - star_c dx dt a (n - 1 - i).
Proof.
  intros Hi. unfold star_c. cbn [sub mul div Num_R].
  rewrite (@point_at i) by lia.
  rewrite (@flux_c_point (i + 1)), (@flux_c_point i) by lia.
  replace (n - (i + 1))%nat with (n - 1 - i)%nat by lia.
  replace (n - i)%nat with (n - 1 - i + 1)%nat by lia. lra.
Qed.
End PointSymmetry.

Lemma extend_point (n : nat) (g : nat -> R) :
  (5 <= n)%nat ->
  (forall i, (2 <= i <= n - 3)%nat -> g i = 1 - g (n - 1 - i)%nat) ->
  point_symf n (extend_at n g).
Proof.
  intros Hn H j Hj. unfold extend_at. cbn [sub one ofZ Num_R].
  nat_cases.
  - rewrite (H (n - 3)%nat) by lia. do 2 f_equal. lia.
  - rewrite (H 2%nat) at 1 by lia. do 2 f_equal. lia.
  - apply H. lia.
Qed.

Lemma new_c_point (n : nat) (dx dt : R) (a qs : nat -> R) i :
  (5 <= n)%nat -> point_symf n a -> point_symf n qs ->
  (2 <= i <= n - 3)%nat ->
  new_c dx dt a qs i = 1 - new_c dx dt a qs (n - 1 - i).
Proof.
  intros Hn Ha Hqs Hi. unfold new_c, half. cbn [add sub mul div ofZ Num_R].
  rewrite (@point_at n a Ha i), (@point_at n qs Hqs i) by lia.
  rewrite (@flux_c_point n dx dt Hn qs Hqs (i + 1)),
    (@flux_c_point n dx dt Hn qs Hqs i) by lia.
  replace (n - (i + 1))%nat with (n - 1 - i)%nat by lia.
  replace (n - i)%nat with (n - 1 - i + 1)%nat by lia. lra.
Qed.

Lemma next_point (n : nat) (dx dt : R) (q : list R) :
  (5 <= n)%nat -> point_sym n q -> point_sym n (next n dx dt q).
Proof.
  intros Hn Hq. unfold point_sym, next.
  assert (Hs : point_symf n (extend_at n (star_c dx dt (get q)))).
  { apply extend_point; [exact Hn|]. intros i Hi.
    now apply star_c_point. }
  assert (Hx : point_symf n (next_c n dx dt (get q))).
  { unfold next_c. apply extend_point; [exact Hn|]. intros i Hi.
    now apply new_c_point. }
  intros j Hj. rewrite !get_tab by lia. apply Hx. exact Hj.
Qed.

Lemma snapshots_point (n : nat) (dx dt : R) k : forall q,
  (5 <= n)%nat -> point_sym n q ->
  Forall (point_sym n) (snapshots n dx dt k q).
Proof.
  induction k as [|k IH]; intros q Hn Hq; cbn [snapshots].
  - constructor; [exact Hq|constructor].
  - constructor; [exact Hq|]. apply IH; [exact Hn|]. now apply next_point.
Qed.

(** C8, as amended.  In exact arithmetic, for every initial profile whose
    values on the grid satisfy Q[i] = 1 - Q[n-1-i] (the mirror image about
    x = 0.5 composed with q -> 1 - q, the symmetry of the flux q*(1-q)), the
    script terminates and every snapshot of its history has the same
    property.  The grid itself is mirror-symmetric about 0.5: the
    coordinates of the cells i and n-1-i add up to 1. *)
Theorem point_symmetry (mz : Z) (T0 cfl0 : R) (q : R -> R) :
  (1 <= mz)%Z -> 0 < cfl0 ->
  let n := Z.to_nat (mz + 4) in
  let dx0 := 1 / IZR mz in
  (forall i, (i < n)%nat ->
     q (-3 * dx0 / 2 + INR i * dx0)
     = 1 - q (-3 * dx0 / 2 + INR (n - 1 - i) * dx0)) ->
  exists fuel x hist,
    program (mkConfig mz T0 cfl0 q) fuel = Some (Ok (x, hist)) /\
    (forall i, (i < n)%nat -> get x i + get x (n - 1 - i) = 1) /\
    point_sym n (nth 0 hist []) /\
    Forall (point_sym n) hist.
Proof.
  intros Hm Hcfl n dx0 Hq.
  assert (Hn : (5 <= n)%nat) by exact (n0_ge Hm).
  assert (Hdx : 0 < dx0) by exact (dx0_pos Hm).
  assert (Hdt : 0 < cfl0 * dx0) by nra.
  assert (HI : INR n = IZR mz + 4) by exact (INR_n0 Hm).
  assert (Hmd : IZR mz * dx0 = 1).
  { unfold dx0. field. now apply IZR_pos_neq. }
  destruct (ticks_terminates T0 Hdt 0) as (k & fuel & E).
  exists fuel. rewrite (program_R Hm). fold n dx0. rewrite E.
  do 2 eexists. split; [reflexivity|].
  assert (H0 : point_sym n
                 (map q (tab n (fun i => -3 * dx0 / 2 + INR i * dx0)))).
  { rewrite map_tab. intros i Hi. rewrite !get_tab by lia.
    cbn [sub one ofZ Num_R]. now apply Hq. }
  split; [|split].
  - intros i Hi. rewrite !get_tab by lia.
    rewrite !minus_INR by lia. cbn [INR]. rewrite HI. nra.
  - rewrite snapshots_first. exact H0.
  - now apply snapshots_point.
Qed.

Lemma point_symmetry_witness :
  let n := Z.to_nat (100 + 4) in
  let dx0 := 1 / IZR 100 in
  exists fuel x hist,
    program (mkConfig 100 (1 / 2) (4 / 10) (fun v => v)) fuel
    = Some (Ok (x, hist)) /\
    (forall i, (i < n)%nat -> get x i + get x (n - 1 - i) = 1) /\
    point_sym n (nth 0 hist []) /\
    Forall (point_sym n) hist.
Proof.
  apply (@point_symmetry 100 (1 / 2) (4 / 10) (fun v => v)); [lia|lra|].
  intros i Hi. change (Z.to_nat (100 + 4)) with 104%nat in *.
  rewrite !minus_INR by lia.
  rewrite (INR_IZR_INZ 104), (INR_IZR_INZ 1).
  change (IZR (Z.of_nat 104)) with 104. change (IZR (Z.of_nat 1)) with 1.
  lra.
Defined.

(** * Further facts about the script *)

Import Ianimate.

Close Scope R_scope.

(** ** Boundary extension *)

Section Extension.
Context {A : Type} `{NumA : Num A}.

Lemma extend_at_twice n (g : nat -> A) i :
  5 <= n -> extend_at n (extend_at n g) i = extend_at n g i.
Proof.
  intros Hn. apply extend_at_ext; [exact Hn|]. intros j Hj.
  now apply extend_at_interior.
Qed.

(** X1.  The boundary extension a[0:2] = a[2]; a[-2:] = a[-3] raises
    IndexError exactly on arrays with fewer than three entries.  On any
    longer array it returns an array of the same length whose two ghost
    entries on each side repeat the neighbouring interior entry and whose
    interior entries are unchanged, and extending that array again
    changes nothing. *)
Theorem extend_behaviour (a : list A) :
  (length a < 3 -> extend a = Raise IndexError) /\
  (3 <= length a ->
   exists b,
     extend a = Ok b /\ length b = length a /\
     ghost (length a) b /\
     (forall i, 2 <= i <= length a - 3 -> get b i = get a i) /\
     extend b = Ok b).
Proof.
  split.
  - intros H. destruct a as [|a0 [|a1 [|a2 a]]]; try reflexivity.
    cbn [length] in H. lia.
  - intros H.
    destruct (Nat.le_gt_cases 5 (length a)) as [Hn|Hn].
    + remember (length a) as n eqn:En. symmetry in En.
      pose proof (as_tab Hn a En) as Ea.
      exists (tab n (extend_at n (get a))). split.
      { transitivity (extend (tab n (get a))).
        - f_equal. exact Ea.
        - apply (extend_tab Hn). }
      rewrite tab_length. split; [reflexivity|].
      split; [now apply ghost_extend|]. split.
      * intros i Hi. rewrite get_tab by lia.
        now apply extend_at_interior.
      * rewrite (extend_tab Hn). f_equal. apply tab_ext. intros i Hi.
        now apply extend_at_twice.
    + destruct a as [|a0 [|a1 [|a2 [|a3 [|a4 a]]]]];
        cbn [length] in H, Hn; try lia.
      * exists [a2; a2; a2].
        split; [reflexivity|]. split; [reflexivity|].
        split; [repeat split; reflexivity|]. split; [|reflexivity].
        intros i Hi. cbn [length] in Hi. lia.
      * exists [a2; a2; a2; a2].
        split; [reflexivity|]. split; [reflexivity|].
        split; [repeat split; reflexivity|]. split; [|reflexivity].
        intros i Hi. cbn [length] in Hi. lia.
Qed.
End Extension.

(** ** The body of the loop *)

Section Body.
Context {A : Type} `{NumA : Num A}.
Variables (n : nat) (dx dt : A).
Hypothesis Hn : 5 <= n.

(* with dx = 0 the quotient dt/dx of line 43 raises, after the fluxes *)
Lemma step_dx_zero (s : @state A) :
  shaped n s -> is_zero dx = true ->
  step dx dt s = Raise ZeroDivisionError.
Proof.
  intros (HQ & Hq & Hs & Hp & Hm & HF) Hz.
  apply as_tab in HQ, Hp, Hm, HF; try exact Hn.
  unfold step, predictor.
  rewrite HQ, (fluxes_tab dx dt Hn _ _ _ _ s Hp Hm HF). cbn [bind].
  unfold pydiv. rewrite Hz. reflexivity.
Qed.

(** X2.  One pass through the loop, on a state whose arrays all have
    n = m+4 entries, whatever values they hold (nan and infinities
    included): if dx is zero the pass raises ZeroDivisionError at dt/dx;
    otherwise it raises nothing, advances t by dt, and appends exactly one
    array to the history, the new Q, which has n entries and extended
    ghost cells; every array recorded earlier is left as it was. *)
Theorem step_appends (s : @state A) :
  shaped n s -> recorded s ->
  (is_zero dx = true -> step dx dt s = Raise ZeroDivisionError) /\
  (is_zero dx = false ->
   exists s',
     step dx dt s = Ok s' /\ shaped n s' /\ recorded s' /\
     t s' = add (t s) dt /\
     history s' = history s ++ [load (heap s') (Q s')] /\
     ghost n (load (heap s') (Q s')) /\
     forall a, a < length (heap s) -> load (heap s') a = load (heap s) a).
Proof.
  intros Hs Hr. split; [now apply step_dx_zero|]. intros Hz.
  destruct (step_ok dx dt Hn Hz Hs) as (s' & E & Hs' & Ht & Hh & HQ & HQQ).
  destruct (history_step Hn s' _ Hr Hh HQQ) as [Hh' Hr'].
  exists s'. split; [exact E|]. split; [exact Hs'|]. split; [exact Hr'|].
  split; [exact Ht|].
  assert (L : load (heap s') (Q s') = next n dx dt (load (heap s) (Q s))).
  { rewrite Hh, HQ. apply load_alloc. }
  split; [now rewrite L|]. split.
  - rewrite L. now apply next_ghost.
  - intros a Ha. rewrite Hh. now apply load_old.
Qed.

(** X3.  The loop computes a pure iteration.  Started in a state whose
    arrays have n entries and whose history ends with the current Q, it
    never raises; when it returns, after k passes, the history is the one
    it started with followed by next(Q), next(next(Q)), ..., k arrays,
    where next reads nothing but the array it is applied to: what the work
    arrays Qnew, Qstar, sigma, dQplus, dQminus and F hold at the start has
    no effect on the history. *)
Theorem loop_is_iteration (T0 : A) (fuel : nat) (s : @state A) H :
  is_zero dx = false -> shaped n s -> recorded s ->
  history s = H ++ [load (heap s) (Q s)] ->
  match run dx dt T0 fuel s with
  | None => ticks dt T0 fuel (t s) = None
  | Some (Raise _) => False
  | Some (Ok s') =>
      exists k,
        ticks dt T0 fuel (t s) = Some k /\
        history s' = H ++ snapshots n dx dt k (load (heap s) (Q s)) /\
        length (history s') = length H + S k
  end.
Proof.
  intros Hz Hs Hr Hh.
  pose proof (@run_history A NumA n dx dt T0 Hn Hz fuel s H _ Hs Hr
                eq_refl Hh) as R.
  destruct (ticks dt T0 fuel (t s)) as [k|].
  - destruct R as (s' & -> & Hh'). exists k.
    split; [reflexivity|]. split; [exact Hh'|].
    rewrite Hh', length_app, snapshots_length. reflexivity.
  - rewrite R. reflexivity.
Qed.
End Body.

Lemma step_appends_witness :
  let s := small_state [0; 0; 0.5; 0; 0]%float in
  (is_zero 1%float = true -> step 1%float 0.5%float s = Raise ZeroDivisionError)
  /\
  (is_zero 1%float = false ->
   exists s',
     step 1%float 0.5%float s = Ok s' /\ shaped 5 s' /\ recorded s' /\
     t s' = add (t s) 0.5%float /\
     history s' = history s ++ [load (heap s') (Q s')] /\
     ghost 5 (load (heap s') (Q s')) /\
     forall a, a < length (heap s) -> load (heap s') a = load (heap s) a).
Proof.
  apply (@step_appends float Num_float 5 1%float 0.5%float ltac:(lia)
           (small_state [0; 0; 0.5; 0; 0]%float)).
  - repeat split; reflexivity.
  - constructor; [cbn; lia|constructor].
Defined.

Lemma loop_is_iteration_witness :
  let s := small_state [0; 0; 0.5; 0; 0]%float in
  match run 1%float 0.5%float 1%float 5 s with
  | None => ticks 0.5%float 1%float 5 (t s) = None
  | Some (Raise _) => False
  | Some (Ok s') =>
      exists k,
        ticks 0.5%float 1%float 5 (t s) = Some k /\
        history s' = [] ++ snapshots 5 1%float 0.5%float k (load (heap s) (Q s)) /\
        length (history s') = length (@nil (list float)) + S k
  end.
Proof.
  apply (@loop_is_iteration float Num_float 5 1%float 0.5%float ltac:(lia)
           1%float 5 (small_state [0; 0; 0.5; 0; 0]%float) []).
  - reflexivity.
  - repeat split; reflexivity.
  - constructor; [cbn; lia|constructor].
  - reflexivity.
Defined.

(** ** What the loop never writes *)

Section Ends.
Context {A : Type} `{NumA : Num A}.
Variables (n : nat) (dx dt : A).
Hypothesis Hn : 5 <= n.
Hypothesis Hdx : is_zero dx = false.

Lemma same_ends_refl (s : @state A) : same_ends n s s.
Proof. repeat split; reflexivity. Qed.

Lemma same_ends_trans (s1 s2 s3 : @state A) :
  same_ends n s1 s2 -> same_ends n s2 s3 -> same_ends n s1 s3.
Proof.
  intros (A1 & A2 & A3 & A4 & A5) (B1 & B2 & B3 & B4 & B5).
  repeat split; try congruence.
  intros j Hj. rewrite (B5 j Hj). now apply A5.
Qed.

Lemma step_same_ends (s : @state A) :
  shaped n s ->
  exists s', step dx dt s = Ok s' /\ shaped n s' /\ same_ends n s s'.
Proof.
  intros Hsh. pose proof Hsh as (HQ & Hq & Hs & Hp & Hm & HF).
  apply as_tab in HQ, Hq, Hs, Hp, Hm, HF; try exact Hn.
  destruct (step_ok dx dt Hn Hdx Hsh) as (s' & E & Hsh' & _).
  exists s'. split; [exact E|]. split; [exact Hsh'|].
  revert E. unfold step.
  rewrite (@predictor_tab A NumA n dx dt Hn Hdx _ _ _ _ _ s HQ Hs Hp Hm HF).
  cbn [bind].
  match goal with
  | |- context [corrector dx dt ?s1] =>
      rewrite (@corrector_tab A NumA n dx dt Hn Hdx
                 (get (load (heap s) (Q s))) _ (get (Qnew s)) _ _ _ s1
                 HQ eq_refl Hq eq_refl eq_refl eq_refl)
  end.
  cbn [bind Qstar].
  match goal with
  | |- context [advance dt ?s2] =>
      rewrite (@advance_tab A NumA n dt Hn _ s2 eq_refl)
  end.
  intros E. injection E as <-. unfold same_ends.
  cbn [F dQplus dQminus Qnew].
  rewrite !get_tab by lia.
  unfold stage_flux, F_new, dQplus_new, dQminus_new.
  split; [nat_cases; reflexivity|]. split; [nat_cases; reflexivity|].
  split; [nat_cases; reflexivity|]. split; [nat_cases; reflexivity|].
  intros j Hj. destruct (Nat.lt_ge_cases j n) as [Hjn|Hjn].
  - rewrite get_tab by exact Hjn. unfold new_at. nat_cases; reflexivity.
  - unfold get. rewrite !nth_overflow; [reflexivity| |].
    + rewrite (proj1 (proj2 Hsh)). exact Hjn.
    + rewrite tab_length. exact Hjn.
Qed.

(** X4.  No line of the loop assigns the first or the last entry of F,
    the last entry of dQplus, the first entry of dQminus or the four ghost
    entries of Qnew (the boundary extension is applied to the copy of
    Qnew, not to Qnew): in every state the loop returns, these entries
    hold what they held when the loop started, zeros in the script. *)
Theorem loop_keeps_ends (T0 : A) (fuel : nat) : forall (s s' : @state A),
  shaped n s -> run dx dt T0 fuel s = Some (Ok s') -> same_ends n s s'.
Proof.
  induction fuel as [|fuel IH]; intros s s' Hsh E; [discriminate|].
  cbn [run] in E. destruct (ltb (t s) T0).
  - destruct (step_same_ends Hsh) as (s1 & E1 & Hsh1 & He).
    rewrite E1 in E. apply (same_ends_trans He). now apply IH.
  - injection E as <-. apply same_ends_refl.
Qed.
End Ends.

Lemma loop_keeps_ends_witness :
  let s := small_state [0; 0; 0.5; 0; 0]%float in
  exists s',
    run 1%float 0.5%float 1%float 5 s = Some (Ok s') /\ same_ends 5 s s'.
Proof.
  intros s. eexists. split; [vm_compute; reflexivity|].
  apply (@loop_keeps_ends float Num_float 5 1%float 0.5%float ltac:(lia)
           eq_refl 1%float 5).
  - repeat split; reflexivity.
  - vm_compute. reflexivity.
Defined.

(** ** A grid of the wrong length *)

Section Mismatch.
Context {A : Type} `{NumA : Num A}.

Lemma diff_tab n' (g : nat -> A) :
  1 <= n' ->
  ewise sub (slice (Some 1%Z) None (tab n' g))
    (slice None (Some (-1)%Z) (tab n' g))
  = Ok (tab (n' - 1) (fun j => sub (g (1 + j)) (g (0 + j)))).
Proof.
  intros Hn'.
  rewrite (slice_tab (Some 1%Z) None g (i := 1) (n' - 1)) by bounds.
  rewrite (slice_tab None (Some (-1)%Z) g (i := 0) (n' - 1)) by bounds.
  apply ewise_tab.
Qed.

Lemma setslice_mismatch (a : list A) k (h : nat -> A) :
  2 <= k -> k <> length a - 1 ->
  setslice None (Some (-1)%Z) a (tab k h) = Raise ValueError.
Proof.
  intros Hk Hne. unfold setslice. rewrite tab_length.
  replace (upper (length a) (Some (-1)%Z) - lower (length a) None)
    with (length a - 1) by bounds.
  destruct (Nat.eqb_spec k (length a - 1)) as [E|_]; [contradiction|].
  destruct k as [|[|k]]; try lia. reflexivity.
Qed.

(** X5.  When the array Q does not have as many entries as the work
    arrays (at least three, but not the m+4 of np.zeros(m+4)), the first
    array assignment of the loop body, dQplus[:-1] = Q[1:]-Q[:-1], raises
    ValueError: the pass, and with it the loop, stops there, before
    anything is recorded. *)
Theorem wrong_length_raises (dx dt T0 : A) (fuel : nat) (s : @state A) :
  3 <= length (load (heap s) (Q s)) ->
  length (load (heap s) (Q s)) <> length (dQplus s) ->
  fluxes dx dt (load (heap s) (Q s)) s = Raise ValueError /\
  step dx dt s = Raise ValueError /\
  (ltb (t s) T0 = true ->
   run dx dt T0 (S fuel) s = Some (Raise ValueError)).
Proof.
  intros H3 Hne.
  assert (E : fluxes dx dt (load (heap s) (Q s)) s = Raise ValueError).
  { unfold fluxes. rewrite (tab_nth (load (heap s) (Q s)) zero).
    rewrite diff_tab by lia. cbn [bind].
    rewrite setslice_mismatch; [reflexivity|lia|lia]. }
  assert (E' : step dx dt s = Raise ValueError).
  { unfold step, predictor. rewrite E. reflexivity. }
  split; [exact E|]. split; [exact E'|].
  intros Hlt. cbn [run]. rewrite Hlt, E'. reflexivity.
Qed.
End Mismatch.

(* the script with m = 11 in binary64: the grid has 16 entries, the work
   arrays 15 *)
Lemma wrong_length_raises_witness :
  exists st,
    setup (mkConfig 11 (tenths 5) (tenths 4) (fun v : float => v)) = Ok st /\
    fluxes (dx st) (dt st) (load (heap (init st)) (Q (init st))) (init st)
    = Raise ValueError /\
    step (dx st) (dt st) (init st) = Raise ValueError /\
    (ltb (t (init st)) (tenths 5) = true ->
     run (dx st) (dt st) (tenths 5) 1 (init st) = Some (Raise ValueError)).
Proof.
  eexists. split; [vm_compute; reflexivity|].
  apply (@wrong_length_raises float Num_float).
  - vm_compute. lia.
  - vm_compute. lia.
Defined.

(** ** The numerical domain of dependence *)

Section Stencil.
Context {A : Type} `{NumA : Num A}.
Variables (n : nat) (dx dt : A).
Hypothesis Hn : 5 <= n.
Hypothesis Hdx : is_zero dx = false.

Lemma slope_c_local (q q' : nat -> A) i :
  (forall j, i - 1 <= j <= i + 1 -> q j = q' j) ->
  slope_c dx q i = slope_c dx q' i.
Proof. intros E. unfold slope_c. rewrite !E by lia. reflexivity. Qed.

Lemma flux_c_local (q q' : nat -> A) i :
  (forall j, i - 2 <= j <= i + 1 -> q j = q' j) ->
  flux_c dx dt q i = flux_c dx dt q' i.
Proof.
  intros E. unfold flux_c, qplus_at, qminus_at.
  rewrite (@slope_c_local q q' i) by (intros; apply E; lia).
  rewrite (@slope_c_local q q' (i - 1)) by (intros; apply E; lia).
  rewrite !E by lia. reflexivity.
Qed.

Lemma star_c_local (q q' : nat -> A) i :
  (forall j, i - 2 <= j <= i + 2 -> q j = q' j) ->
  star_c dx dt q i = star_c dx dt q' i.
Proof.
  intros E. unfold star_c.
  rewrite (@flux_c_local q q' (i + 1)) by (intros; apply E; lia).
  rewrite (@flux_c_local q q' i) by (intros; apply E; lia).
  rewrite E by lia. reflexivity.
Qed.

(* one pass: an interior entry of the next time level reads the entries
   at most four places away *)
Lemma next_c_local (q q' : nat -> A) i :
  2 <= i <= n - 3 ->
  (forall j, i - 4 <= j <= i + 4 -> j < n -> q j = q' j) ->
  next_c n dx dt q i = next_c n dx dt q' i.
Proof.
  intros Hi E.
  assert (Es : forall j, i - 2 <= j <= i + 2 ->
            extend_at n (star_c dx dt q) j = extend_at n (star_c dx dt q') j).
  { intros j Hj. unfold extend_at.
    nat_cases; apply star_c_local; intros; apply E; lia. }
  unfold next_c. unfold extend_at at 1 3. nat_cases. unfold new_c.
  rewrite (@flux_c_local (extend_at n (star_c dx dt q))
             (extend_at n (star_c dx dt q')) (i + 1))
    by (intros; apply Es; lia).
  rewrite (@flux_c_local (extend_at n (star_c dx dt q))
             (extend_at n (star_c dx dt q')) i)
    by (intros; apply Es; lia).
  rewrite Es by lia. rewrite E by lia. reflexivity.
Qed.

Lemma next_near (q : nat -> A) j :
  next_c n dx dt q j = next_c n dx dt q (near n j).
Proof.
  unfold next_c, near. unfold extend_at at 1 3. nat_cases; reflexivity.
Qed.

Lemma iter_length k : forall q : list A,
  length q = n -> length (Nat.iter k (next n dx dt) q) = n.
Proof.
  induction k as [|k IH]; intros q Hq; [exact Hq|].
  rewrite Nat.iter_succ. unfold next at 1. apply tab_length.
Qed.

(* k passes: the entries at most 4k places away from j and from the
   nearest interior index *)
Lemma iter_local k : forall (q q' : list A) j,
  j < n ->
  (forall l, Nat.min j (near n j) - 4 * k <= l <= Nat.max j (near n j) + 4 * k ->
             l < n -> get q l = get q' l) ->
  get (Nat.iter k (next n dx dt) q) j = get (Nat.iter k (next n dx dt) q') j.
Proof.
  induction k as [|k IH]; intros q q' j Hj E.
  - unfold Nat.iter. cbn [nat_rect]. apply E; [|exact Hj]. unfold near. nat_cases.
  - rewrite !Nat.iter_succ.
    set (a := Nat.iter k (next n dx dt) q).
    set (b := Nat.iter k (next n dx dt) q').
    unfold next. rewrite !get_tab by exact Hj.
    rewrite (next_near (get a) j), (next_near (get b) j).
    apply next_c_local; [unfold near; nat_cases|].
    intros l Hl Hln. apply IH; [exact Hln|].
    intros l' Hl' Hl'n. apply E; [|exact Hl'n].
    revert Hl Hl'. unfold near. nat_cases.
Qed.

(* the array Q when the loop returns *)
Lemma run_iter (T0 : A) fuel : forall (s : @state A),
  shaped n s ->
  match ticks dt T0 fuel (t s) with
  | None => run dx dt T0 fuel s = None
  | Some k =>
      exists s', run dx dt T0 fuel s = Some (Ok s') /\ shaped n s' /\
                 load (heap s') (Q s')
                 = Nat.iter k (next n dx dt) (load (heap s) (Q s))
  end.
Proof.
  induction fuel as [|fuel IH]; intros s Hsh; [reflexivity|].
  cbn [ticks run]. destruct (ltb (t s) T0).
  - destruct (step_ok dx dt Hn Hdx Hsh)
      as (s1 & -> & Hsh1 & Ht & Hheap & HQ1 & _).
    specialize (IH s1 Hsh1). rewrite Ht in IH.
    destruct (ticks dt T0 fuel (add (t s) dt)) as [k|]; [|exact IH].
    cbn [option_map]. destruct IH as (s' & E & Hsh' & HQ').
    exists s'. split; [exact E|]. split; [exact Hsh'|].
    rewrite HQ', Hheap, HQ1, load_alloc.
    symmetry. apply Nat.iter_succ_r.
  - exists s. split; [reflexivity|]. split; [exact Hsh|reflexivity].
Qed.

(** X6.  Numerical domain of dependence.  One pass of the loop makes an
    interior entry Q[i] of the new array from the nine entries
    Q[i-4] .. Q[i+4] of the old one (those that exist), and from nothing
    else: not from the work arrays, not from t.  So after k passes Q[i]
    is determined by the entries of the starting array at most 4k places
    away: two runs of the loop that make the same number k of passes and
    start from arrays that agree on i-4k .. i+4k return arrays that agree
    at i. *)
Theorem domain_of_dependence (T0 T0' : A) (fuel fuel' k i : nat)
    (s1 s2 s1' s2' : @state A) :
  shaped n s1 -> shaped n s2 ->
  run dx dt T0 fuel s1 = Some (Ok s1') ->
  run dx dt T0' fuel' s2 = Some (Ok s2') ->
  ticks dt T0 fuel (t s1) = Some k ->
  ticks dt T0' fuel' (t s2) = Some k ->
  2 <= i <= n - 3 ->
  (forall j, i - 4 * k <= j <= i + 4 * k -> j < n ->
     get (load (heap s1) (Q s1)) j = get (load (heap s2) (Q s2)) j) ->
  get (load (heap s1') (Q s1')) i = get (load (heap s2') (Q s2')) i.
Proof.
  intros Hsh1 Hsh2 E1 E2 K1 K2 Hi E.
  pose proof (run_iter T0 fuel Hsh1) as R1. rewrite K1 in R1.
  pose proof (run_iter T0' fuel' Hsh2) as R2. rewrite K2 in R2.
  destruct R1 as (u1 & U1 & _ & H1); rewrite E1 in U1.
  destruct R2 as (u2 & U2 & _ & H2); rewrite E2 in U2.
  injection U1 as <-. injection U2 as <-. rewrite H1, H2.
  apply iter_local; [lia|].
  intros l Hl Hln. apply E; [|exact Hln]. revert Hl. unfold near. nat_cases.
Qed.
End Stencil.

(* two arrays of eleven cells that differ in the outermost cells only:
   after one pass the middle cell holds the same number *)
Lemma domain_of_dependence_witness :
  let s1 := small_state [0; 0; 0; 0.25; 0.5; 0.75; 0.5; 0.25; 0; 0; 0]%float in
  let s2 := small_state [1; 0; 0; 0.25; 0.5; 0.75; 0.5; 0.25; 0; 0; 0.5]%float in
  exists s1' s2',
    run 1%float 0.5%float 0.5%float 3 s1 = Some (Ok s1') /\
    run 1%float 0.5%float 0.5%float 3 s2 = Some (Ok s2') /\
    get (load (heap s1') (Q s1')) 5 = get (load (heap s2') (Q s2')) 5.
Proof.
  intros s1 s2. eexists. eexists.
  split; [vm_compute; reflexivity|]. split; [vm_compute; reflexivity|].
  apply (@domain_of_dependence float Num_float 11 1%float 0.5%float
           ltac:(lia) eq_refl 0.5%float 0.5%float 3 3 1 5 s1 s2).
  - repeat split; reflexivity.
  - repeat split; reflexivity.
  - vm_compute. reflexivity.
  - vm_compute. reflexivity.
  - reflexivity.
  - reflexivity.
  - lia.
  - intros j Hj Hjn.
    assert (Hc : j = 1 \/ j = 2 \/ j = 3 \/ j = 4 \/ j = 5 \/ j = 6 \/ j = 7
                 \/ j = 8 \/ j = 9) by lia.
    destruct Hc as [->|[->|[->|[->|[->|[->|[->|[->| ->]]]]]]]]; reflexivity.
Defined.

(** ** The display *)

Section Frames.
Context {A : Type} `{NumA : Num A}.

Lemma getitem_in (X : Type) (a : list X) (i : nat) (d : X) :
  i < length a -> getitem a (Z.of_nat i) = Ok (nth i a d).
Proof.
  intros Hi. unfold getitem.
  destruct (Z.ltb_spec (Z.of_nat i) 0) as [H|_]; [lia|].
  destruct (Z.leb_spec 0 (Z.of_nat i)) as [_|H]; [|lia].
  destruct (Z.ltb_spec (Z.of_nat i) (Z.of_nat (length a))) as [_|H]; [|lia].
  cbn [andb]. rewrite Nat2Z.id.
  rewrite (nth_error_nth' a d Hi). reflexivity.
Qed.

Lemma map_seq_nth (X Y : Type) (g : X -> Y) (d : X) (q : list X) :
  map (fun i => g (nth i q d)) (seq 0 (length q)) = map g q.
Proof.
  induction q as [|v q IH]; [reflexivity|].
  cbn [length seq map nth]. f_equal.
  rewrite <- seq_shift, map_map. exact IH.
Qed.

Lemma animation_parts (xc : list A) (q : list (list A))
    (bounds : A * A * A * A) :
  frames (ianimate xc q bounds) = length q /\
  play (ianimate xc q bounds) = map (fun y => Ok (xc, y)) q.
Proof.
  unfold play, ianimate. cbn [frames fplot]. split; [reflexivity|].
  rewrite <- (map_seq_nth (fun y => Ok (xc, y)) [] q).
  apply map_ext_in. intros i Hi. apply in_seq in Hi.
  rewrite (@getitem_in _ q i []) by lia. reflexivity.
Qed.
End Frames.

Open Scope R_scope.

(* the loop makes k passes only if t + k*dt is the first such time not
   below T *)
Lemma ticks_least (dt T0 : R) fuel : forall t0 k,
  ticks dt T0 fuel t0 = Some k ->
  (forall j, (j < k)%nat -> t0 + INR j * dt < T0) /\
  ~ t0 + INR k * dt < T0 /\ (k < fuel)%nat.
Proof.
  induction fuel as [|fuel IH]; intros t0 k E; [discriminate|].
  cbn [ticks ltb Num_R] in E. unfold Rltb in E.
  destruct (Rlt_dec t0 T0) as [Hlt|Hge].
  - destruct (ticks dt T0 fuel (add t0 dt)) as [k'|] eqn:E'; [|discriminate].
    injection E as <-. destruct (IH _ _ E') as (L & G & F).
    cbn [add Num_R] in L, G. split; [|split; [|lia]].
    + intros [|j] Hj; [cbn [INR]; lra|].
      specialize (L j ltac:(lia)). rewrite S_INR. lra.
    + rewrite S_INR. lra.
  - injection E as <-. split; [intros j Hj; lia|]. split; [|lia].
    cbn [INR]. lra.
Qed.

Lemma snapshots_lengths (n : nat) (dx dt : R) k : forall q,
  length q = n -> Forall (fun y => length y = n) (snapshots n dx dt k q).
Proof.
  induction k as [|k IH]; intros q Hq; cbn [snapshots].
  - constructor; [exact Hq|constructor].
  - constructor; [exact Hq|]. apply IH. apply tab_length.
Qed.

(** X8.  In exact arithmetic the whole script, with a number of cells
    m >= 1 and a positive Courant number, comes to an end and shows an
    animation.  The loop makes k passes, where k is the least natural
    number with k*dt >= T, so the animation has k+1 frames; every frame
    draws m+4 values against the m+4 cell centres, the first frame the
    initial data, inside the axis limits 0, 1, -0.1, 1.1. *)
Theorem script_animation (mz : Z) (T0 cfl0 : R) (q : R -> R) :
  (1 <= mz)%Z -> 0 < cfl0 ->
  let dt0 := cfl0 * (1 / IZR mz) in
  let n := Z.to_nat (mz + 4) in
  exists k : nat,
    (forall j, (j < k)%nat -> INR j * dt0 < T0) /\ ~ INR k * dt0 < T0 /\
    forall fuel, (k < fuel)%nat ->
    exists an x,
      script (mkConfig mz T0 cfl0 q) fuel = Some (Ok an) /\
      frames an = S k /\
      axis an = (0, 1, -1 / 10, 11 / 10) /\
      length x = n /\
      nth 0%nat (play an) (Raise IndexError) = Ok (x, map q x) /\
      forall i, (i < S k)%nat ->
        exists y, nth i (play an) (Raise IndexError) = Ok (x, y) /\
                  length y = n.
Proof.
  intros Hm Hc dt0 n.
  assert (Hdt : 0 < dt0).
  { unfold dt0. apply Rmult_lt_0_compat; [exact Hc|]. now apply dx0_pos. }
  destruct (ticks_terminates T0 Hdt 0) as (k & fuel0 & E0).
  destruct (ticks_least _ _ _ _ E0) as (L & G & _).
  exists k. split; [|split].
  - intros j Hj. specialize (L j Hj). lra.
  - intros H. apply G. rewrite Rplus_0_l. exact H.
  - intros fuel Hf.
    assert (E : ticks dt0 T0 fuel 0 = Some k) by (apply ticks_R; assumption).
    set (x := tab n (fun i => -3 * (1 / IZR mz) / 2 + INR i * (1 / IZR mz))).
    exists (ianimate x (snapshots n (1 / IZR mz) dt0 k (map q x)) default_bounds), x.
    split.
    { unfold script. rewrite (program_R Hm T0 cfl0 q fuel).
      fold dt0. rewrite E. reflexivity. }
    destruct (animation_parts x (snapshots n (1 / IZR mz) dt0 k (map q x))
                default_bounds) as (F & P).
    rewrite F, P, snapshots_length.
    split; [reflexivity|]. split.
    { unfold default_bounds, tenths. cbn [ofZ div Num_R]. reflexivity. }
    split; [apply tab_length|]. split.
    { destruct k; reflexivity. }
    intros i Hi.
    pose proof (@snapshots_lengths n (1 / IZR mz) dt0 k (map q x)) as S.
    rewrite length_map in S. specialize (S (tab_length _ _)).
    rewrite Forall_forall in S.
    exists (nth i (snapshots n (1 / IZR mz) dt0 k (map q x)) []). split.
    + rewrite (nth_indep _ _ ((fun y => Ok (x, y)) []))
        by (rewrite length_map, snapshots_length; exact Hi).
      apply (map_nth (fun y : list R => Ok (x, y))).
    + apply S. apply nth_In. rewrite snapshots_length. exact Hi.
Qed.

Lemma script_animation_witness :
  exists k : nat,
    (forall j, (j < k)%nat -> INR j * (1 * (1 / 2)) < 1) /\
    ~ INR k * (1 * (1 / 2)) < 1 /\
    forall fuel, (k < fuel)%nat ->
    exists an x,
      script (mkConfig 2 1 1 (fun v : R => v)) fuel = Some (Ok an) /\
      frames an = S k /\
      axis an = (0, 1, -1 / 10, 11 / 10) /\
      length x = 6%nat /\
      nth 0%nat (play an) (Raise IndexError) = Ok (x, map (fun v => v) x) /\
      forall i, (i < S k)%nat ->
        exists y, nth i (play an) (Raise IndexError) = Ok (x, y) /\
                  length y = 6%nat.
Proof.
  apply (@script_animation 2 1 1 (fun v : R => v)); [lia|lra].
Defined.

(** ** Flat regions *)

Lemma iter_const (n : nat) (dx dt c : R) k :
  (5 <= n)%nat ->
  Nat.iter k (next n dx dt) (repeat c n) = repeat c n.
Proof.
  intros Hn. induction k as [|k IH]; [reflexivity|].
  rewrite Nat.iter_succ, IH. now apply next_const.
Qed.

(** X9.  Finite speed of propagation, in exact arithmetic.  Where the
    starting array Q is constant, equal to c on the entries i-4k .. i+4k
    around an interior index i, the array the loop returns after k passes
    still holds c at i: in k passes nothing travels further than 4k
    cells. *)
Theorem flat_region_stays (n : nat) (dx dt T0 c : R) (fuel k i : nat)
    (s s' : state) :
  (5 <= n)%nat -> dx <> 0 -> shaped n s ->
  run dx dt T0 fuel s = Some (Ok s') ->
  ticks dt T0 fuel (t s) = Some k ->
  (2 <= i <= n - 3)%nat ->
  (forall j, (i - 4 * k <= j <= i + 4 * k)%nat -> (j < n)%nat ->
     get (load (heap s) (Q s)) j = c) ->
  get (load (heap s') (Q s')) i = c.
Proof.
  intros Hn Hdx Hsh E K Hi Hc.
  assert (Hz : is_zero dx = false) by now apply Ris_zero_false.
  pose proof (@run_iter R Num_R n dx dt Hn Hz T0 fuel s Hsh) as R1.
  rewrite K in R1. destruct R1 as (u & U & _ & HQ). rewrite E in U.
  injection U as <-. rewrite HQ.
  rewrite (@iter_local R Num_R n dx dt Hn k _ (repeat c n) i); [| lia |].
  - rewrite iter_const by exact Hn. apply repeat_get. lia.
  - intros l Hl Hln. rewrite repeat_get by exact Hln.
    apply Hc; [|exact Hln]. revert Hl. unfold near. nat_cases.
Qed.

(* eleven cells, the last eight at 1/2, one pass *)
Lemma flat_region_stays_witness :
  let h := 1 / 2 in
  let s := small_state [0; 0; 0; h; h; h; h; h; h; h; h] in
  exists s', run 1 h h 3 s = Some (Ok s') /\
             get (load (heap s') (Q s')) 7 = h.
Proof.
  intros h s.
  assert (K : ticks h h 3 (t s) = Some 1%nat).
  { apply ticks_R; [| |lia].
    - intros j Hj. assert (j = 0%nat) by lia. subst j. unfold h. cbn. lra.
    - unfold h. cbn. lra. }
  assert (Hsh : shaped 11 s) by (repeat split; reflexivity).
  assert (Hz : is_zero (1 : R) = false) by (apply Ris_zero_false; lra).
  pose proof (@run_iter R Num_R 11 1 h ltac:(lia) Hz h 3 s Hsh) as R1.
  rewrite K in R1. destruct R1 as (s' & E & _).
  exists s'. split; [exact E|].
  apply (@flat_region_stays 11 1 h h h 3 1 7 s s');
    [lia|lra|exact Hsh|exact E|exact K|lia|].
  intros j Hj Hjn.
  assert (Hc : (j = 3 \/ j = 4 \/ j = 5 \/ j = 6 \/ j = 7 \/ j = 8
                \/ j = 9 \/ j = 10)%nat) by lia.
  destruct Hc as [->|[->|[->|[->|[->|[->|[->| ->]]]]]]]; reflexivity.
Defined.

(** ** The balance of one time step *)

Lemma step_stages {A : Type} `{NumA : Num A} (dx dt : A) (s s' : state) :
  step dx dt s = Ok s' ->
  exists s1 s2, predictor dx dt s = Ok s1 /\ corrector dx dt s1 = Ok s2 /\
                advance dt s2 = Ok s'.
Proof.
  unfold step. intros E.
  destruct (predictor dx dt s) as [s1|e] eqn:E1; [|discriminate].
  cbn [bind] in E.
  destruct (corrector dx dt s1) as [s2|e] eqn:E2; [|discriminate].
  cbn [bind] in E.
  exists s1, s2. split; [reflexivity|]. split; [exact E2|exact E].
Qed.

(** X10.  The balance of one pass of the loop, in exact arithmetic: the sum
    of Q[i]*dx over the interior cells changes by what flows through the
    two edges of the domain, half with the fluxes of the predictor stage
    and half with those of the corrector stage,
      total(new Q) = total(Q) - dt/2 * ((F1[n-2] - F1[2]) + (F2[n-2] - F2[2])),
    where F1 and F2 are the array F as the two stages leave it.  The fluxes
    at the interior interfaces cancel. *)
Theorem flux_balance (n : nat) (dx dt : R) (s s' : state) :
  (5 <= n)%nat -> dx <> 0 -> shaped n s ->
  step dx dt s = Ok s' ->
  exists s1 s2,
    predictor dx dt s = Ok s1 /\ corrector dx dt s1 = Ok s2 /\
    total dx (load (heap s') (Q s'))
    = total dx (load (heap s) (Q s))
      - dt / 2 * ((get (F s1) (n - 2) - get (F s1) 2)
                  + (get (F s2) (n - 2) - get (F s2) 2)).
Proof.
  intros Hn Hdx (HQ & Hq & Hs & Hp & Hm & HF) E.
  destruct (@step_stages R Num_R dx dt s s' E) as (s1 & s2 & E1 & E2 & E3).
  exists s1, s2. split; [exact E1|]. split; [exact E2|].
  assert (Hz : is_zero dx = false) by now apply Ris_zero_false.
  apply as_tab in HQ, Hq, Hs, Hp, Hm, HF; try exact Hn.
  rewrite (@predictor_tab R Num_R n dx dt Hn Hz _ _ _ _ _ s HQ Hs Hp Hm HF)
    in E1.
  injection E1 as <-.
  match type of E2 with
  | corrector _ _ ?s1 = _ =>
      rewrite (@corrector_tab R Num_R n dx dt Hn Hz
                 (get (load (heap s) (Q s))) _ (get (Qnew s)) _ _ _ s1
                 HQ eq_refl Hq eq_refl eq_refl eq_refl) in E2
  end.
  injection E2 as <-.
  match type of E3 with
  | advance _ ?s2 = _ =>
      rewrite (@advance_tab R Num_R n dt Hn _ s2 eq_refl) in E3
  end.
  injection E3 as <-.
  cbn [F heap Q]. rewrite load_alloc.
  set (q := get (load (heap s) (Q s))) in *. rewrite HQ.
  set (F1 := stage_flux n dx dt q (get (dQplus s)) (get (dQminus s))
               (get (F s))).
  set (qs := extend_at n (star_at n dx dt q F1 (get (Qstar s)))).
  set (F2 := stage_flux n dx dt qs (dQplus_new n q (get (dQplus s)))
               (dQminus_new q (get (dQminus s))) F1).
  rewrite !get_tab by lia.
  rewrite !total_tab by exact Hn.
  rewrite tab_ext with
    (h := fun j =>
            (1 / 2 * q (2 + j)%nat
             + 1 / 2 * (qs (2 + j)%nat
                        - dt / dx * (F2 (2 + j + 1)%nat - F2 (2 + j)%nat)))
            * dx).
  2:{ intros j Hj. rewrite extend_at_interior by lia.
      unfold new_at. nat_cases. reflexivity. }
  rewrite sum_new.
  rewrite tab_ext with
    (g := fun j => qs (2 + j)%nat * dx)
    (h := fun j =>
            (q (2 + j)%nat
             - dt / dx * (F1 (2 + j + 1)%nat - F1 (2 + j)%nat)) * dx).
  2:{ intros j Hj. unfold qs. rewrite extend_at_interior by lia.
      unfold star_at. nat_cases. reflexivity. }
  rewrite sum_star.
  replace (2 + (n - 4))%nat with (n - 2)%nat by lia.
  field. exact Hdx.
Qed.

(* a step in the middle of five cells *)
Lemma flux_balance_witness :
  let s := small_state [0; 0; 1 / 2; 1; 1] in
  let dx := 1 / 10 in
  let dt := 4 / 100 in
  exists s' s1 s2,
    step dx dt s = Ok s' /\
    predictor dx dt s = Ok s1 /\ corrector dx dt s1 = Ok s2 /\
    total dx (load (heap s') (Q s'))
    = total dx (load (heap s) (Q s))
      - dt / 2 * ((get (F s1) (5 - 2) - get (F s1) 2)
                  + (get (F s2) (5 - 2) - get (F s2) 2)).
Proof.
  intros s dx dt.
  assert (Hn : (5 <= 5)%nat) by lia.
  assert (Hdx : dx <> 0) by (unfold dx; lra).
  assert (Hz : is_zero dx = false) by now apply Ris_zero_false.
  assert (Hsh : shaped 5 s) by (repeat split; reflexivity).
  destruct (@step_ok R Num_R 5 dx dt Hn Hz s Hsh) as (s' & E & _).
  exists s'.
  destruct (@flux_balance 5 dx dt s s' Hn Hdx Hsh E) as (s1 & s2 & B).
  exists s1, s2. split; [exact E|exact B].
Defined.

(** ** The numerical flux *)

Ltac Rsplit :=
  unfold Rmax, Rabs;
  repeat match goal with
    | |- context [Rcase_abs ?a] => destruct (Rcase_abs a)
    end;
  repeat match goal with
    | |- context [Rle_dec ?a ?b] => destruct (Rle_dec a b)
    end.

(* the dissipation term alpha*(qp - qm) falls as qm grows *)
Lemma alpha_term_mono (p m m' : R) :
  m <= m' ->
  Rmax (Rabs (1 - 2 * p)) (Rabs (1 - 2 * m')) * (p - m')
  <= Rmax (Rabs (1 - 2 * p)) (Rabs (1 - 2 * m)) * (p - m).
Proof.
  intros H. Rsplit; try nra.
Qed.

Lemma flux_term_mono (p m m' : R) :
  m <= m' ->
  f m - Rmax (Rabs (1 - 2 * p)) (Rabs (1 - 2 * m)) * (p - m)
  <= f m' - Rmax (Rabs (1 - 2 * p)) (Rabs (1 - 2 * m')) * (p - m').
Proof.
  intros H. rewrite !f_R. Rsplit; try nra.
Qed.

Lemma lxf_mono_minus (dx dt p m m' : R) :
  0 < dt <= dx -> m <= m' -> lxf dx dt p m <= lxf dx dt p m'.
Proof.
  intros Hdt H. rewrite !lxf_R.
  pose proof (alpha_term_mono p H) as H1.
  pose proof (flux_term_mono p H) as H2.
  set (a := Rmax (Rabs (1 - 2 * p)) (Rabs (1 - 2 * m))) in *.
  set (a' := Rmax (Rabs (1 - 2 * p)) (Rabs (1 - 2 * m'))) in *.
  assert (Hr : 1 <= dx / dt).
  { apply Rmult_le_reg_r with (r := dt); [lra|].
    unfold Rdiv. rewrite Rmult_assoc, Rinv_l by lra. lra. }
  set (r := dx / dt) in *.
  assert (H3 : 0 <= (r - 1) * (a * (p - m) - a' * (p - m'))).
  { apply Rmult_le_pos; lra. }
  nra.
Qed.

(** X11.  The numerical flux of lines 42 and 55.  The entry F[i] a stage
    stores is one function of the two edge states qplus and qminus at the
    interface.  In exact arithmetic this function is consistent with f (for
    equal edge states it returns f of that state) and, when 0 < dt <= dx
    (the script has dt = 0.4*dx), monotone: it does not decrease when
    qminus, the state on the left, grows, and does not increase when
    qplus, the state on the right, grows. *)
Theorem flux_monotone (n : nat) (dx dt : R) (q : list R) (s : state) :
  (5 <= n)%nat -> 0 < dt <= dx ->
  length q = n -> length (dQplus s) = n ->
  length (dQminus s) = n -> length (F s) = n ->
  (exists s',
     fluxes dx dt q s = Ok s' /\
     forall i, (1 <= i <= n - 2)%nat ->
       get (F s') i
       = lxf dx dt (get q i - get (sigma s') i * dx / 2)
           (get q (i - 1) + get (sigma s') (i - 1) * dx / 2)) /\
  (forall v, lxf dx dt v v = v * (1 - v)) /\
  (forall qp qm qm', qm <= qm' -> lxf dx dt qp qm <= lxf dx dt qp qm') /\
  (forall qp qp' qm, qp <= qp' -> lxf dx dt qp' qm <= lxf dx dt qp qm).
Proof.
  intros Hn Hdt Hq Hp Hm HF. split; [|split; [|split]].
  - apply as_tab in Hq, Hp, Hm, HF; try exact Hn.
    pose proof (fluxes_tab dx dt Hn (get q) _ _ _ s Hp Hm HF) as E.
    rewrite <- Hq in E. eexists. split; [exact E|].
    intros i Hi. cbn [F sigma]. rewrite !get_tab by lia.
    unfold stage_flux, F_new. nat_cases. reflexivity.
  - intros v. rewrite lxf_R, f_R. lra.
  - intros qp qm qm' H. now apply lxf_mono_minus.
  - intros qp qp' qm H.
    rewrite <- (lxf_flip dx dt qp' qm), <- (lxf_flip dx dt qp qm).
    apply lxf_mono_minus; [exact Hdt|lra].
Qed.

Lemma flux_monotone_witness :
  let q := [0; 0; 1 / 2; 0; 0] in
  (exists s',
     fluxes (1 / 100) (4 / 1000) q (small_state q) = Ok s' /\
     forall i, (1 <= i <= 5 - 2)%nat ->
       get (F s') i
       = lxf (1 / 100) (4 / 1000)
           (get q i - get (sigma s') i * (1 / 100) / 2)
           (get q (i - 1) + get (sigma s') (i - 1) * (1 / 100) / 2)) /\
  (forall v, lxf (1 / 100) (4 / 1000) v v = v * (1 - v)) /\
  (forall qp qm qm', qm <= qm' ->
     lxf (1 / 100) (4 / 1000) qp qm <= lxf (1 / 100) (4 / 1000) qp qm') /\
  (forall qp qp' qm, qp <= qp' ->
     lxf (1 / 100) (4 / 1000) qp' qm <= lxf (1 / 100) (4 / 1000) qp qm).
Proof.
  intros q.
  apply (@flux_monotone 5 (1 / 100) (4 / 1000) q (small_state q));
    (lia || lra || reflexivity).
Defined.

(** ** The limiter *)

Lemma Rsign_abs (a : R) : Rsign a * Rabs a = a.
Proof.
  unfold Rsign, Rabs.
  destruct (Rlt_dec a 0), (Rlt_dec 0 a), (Rcase_abs a); lra.
Qed.

Lemma Rsign_opp (a : R) : Rsign (- a) = - Rsign a.
Proof.
  unfold Rsign.
  destruct (Rlt_dec a 0), (Rlt_dec 0 a), (Rlt_dec (- a) 0), (Rlt_dec 0 (- a));
    lra.
Qed.

Lemma Rsign_scale (c a : R) : 0 < c -> Rsign (c * a) = Rsign a.
Proof.
  intros Hc. unfold Rsign.
  destruct (Rlt_dec a 0), (Rlt_dec 0 a), (Rlt_dec (c * a) 0),
    (Rlt_dec 0 (c * a)); try lra; nra.
Qed.

Lemma minmod1_idem (a : R) : minmod1 a a = a.
Proof.
  rewrite minmod1_R. unfold Rmin. destruct (Rle_dec (Rabs a) (Rabs a)).
  - pose proof (Rsign_abs a). lra.
  - pose proof (Rsign_abs a). lra.
Qed.

Lemma minmod1_odd (a b : R) : minmod1 (- a) (- b) = - minmod1 a b.
Proof. rewrite !minmod1_R, !Rsign_opp, !Rabs_Ropp. lra. Qed.

Lemma minmod1_scale (c a b : R) :
  0 <= c -> minmod1 (c * a) (c * b) = c * minmod1 a b.
Proof.
  intros Hc. destruct (Req_dec c 0) as [->|Hne].
  - rewrite !Rmult_0_l, minmod1_idem. lra.
  - rewrite !minmod1_R, !Rsign_scale, !Rabs_mult by lra.
    rewrite (Rabs_pos_eq c) by lra.
    assert (Hmin : Rmin (c * Rabs a) (c * Rabs b) = c * Rmin (Rabs a) (Rabs b)).
    { unfold Rmin.
      destruct (Rle_dec (c * Rabs a) (c * Rabs b)), (Rle_dec (Rabs a) (Rabs b));
        try reflexivity; nra. }
    rewrite Hmin. lra.
Qed.

Lemma ewise_mismatch {X : Type} (op : X -> X -> X) (a b : list X) :
  length a <> length b -> length a <> 1%nat -> length b <> 1%nat ->
  ewise op a b = Raise ValueError.
Proof.
  intros Hne Ha Hb. unfold ewise.
  destruct (Nat.eqb_spec (length a) (length b)) as [E|_]; [contradiction|].
  destruct a as [|x [|x' a]]; destruct b as [|y [|y' b]];
    cbn [length] in *; try reflexivity; lia.
Qed.

(** X12.  The limiter minmod(a,b) on arrays, in exact arithmetic.  On two
    arrays of the same length it raises nothing and returns an array of
    that length; it is symmetric in a and b, returns a for minmod(a,a),
    changes sign with both arguments, and commutes with scaling both
    arguments by a factor c >= 0.  On arrays of different lengths, neither
    of length one, it raises ValueError. *)
Theorem minmod_algebra (a b : list R) :
  (length a = length b ->
   exists mm,
     minmod a b = Ok mm /\ length mm = length a /\
     minmod b a = Ok mm /\
     minmod a a = Ok a /\
     minmod (map Ropp a) (map Ropp b) = Ok (map Ropp mm) /\
     forall c, 0 <= c ->
       minmod (map (Rmult c) a) (map (Rmult c) b) = Ok (map (Rmult c) mm)) /\
  (length a <> length b -> length a <> 1%nat -> length b <> 1%nat ->
   minmod a b = Raise ValueError).
Proof.
  split.
  - intros Hlen.
    rewrite (tab_nth a 0), (tab_nth b 0), <- Hlen.
    set (g := fun i => nth i a 0). set (h := fun i => nth i b 0).
    rewrite !tab_length.
    exists (tab (length a) (fun i => minmod1 (g i) (h i))).
    rewrite !map_tab, !minmod_tab, tab_length.
    split; [reflexivity|]. split; [reflexivity|]. split; [|split; [|split]].
    + f_equal. apply tab_ext. intros i _. apply minmod1_sym.
    + f_equal. apply tab_ext. intros i _. apply minmod1_idem.
    + f_equal. apply tab_ext. intros i _. apply minmod1_odd.
    + intros c Hc. rewrite !map_tab, minmod_tab. f_equal.
      apply tab_ext. intros i _. now apply minmod1_scale.
  - intros Hne Ha Hb. unfold minmod.
    rewrite ewise_mismatch; [reflexivity| | |]; rewrite !length_map;
      assumption.
Qed.

(** ** Grids that are too small *)

Close Scope R_scope.

Ltac sized l :=
  match goal with
  | H : length l = _ |- _ =>
      repeat (let v := fresh "v" in
              destruct l as [|v l]; cbn [length] in H; try lia);
      clear H
  end.

Section Few.
Context {A : Type} `{NumA : Num A}.
Variables (dx dt : A).
Hypothesis Hdx : is_zero dx = false.

Lemma step_few (n : nat) (s : @state A) :
  shaped n s -> n < 3 -> step dx dt s = Raise IndexError.
Proof.
  intros (HQ & Hq & Hs & Hp & Hm & HF) Hn.
  destruct s as [t0 h a qn qs sg dp dm Fl QQ0].
  cbn [heap Q Qnew Qstar dQplus dQminus F] in *.
  unfold step, predictor. cbn [heap Q].
  set (q := load h a) in *. clearbody q.
  destruct n as [|[|[|n]]]; [| | |lia].
  - sized q. sized qn. sized qs. sized dp. sized dm. sized Fl.
    cbn. unfold pydiv. rewrite Hdx. cbn. reflexivity.
  - sized q. sized qn. sized qs. sized dp. sized dm. sized Fl.
    cbn. unfold pydiv. rewrite Hdx. cbn. reflexivity.
  - sized q. sized qn. sized qs. sized dp. sized dm. sized Fl.
    cbn. unfold pydiv. rewrite Hdx. cbn. reflexivity.
Qed.

Lemma run_few (T0 : A) (n fuel : nat) (s : @state A) :
  shaped n s -> n < 3 -> ltb (t s) T0 = true ->
  run dx dt T0 (S fuel) s = Some (Raise IndexError).
Proof.
  intros Hsh Hn Hlt. cbn [run]. rewrite Hlt, (step_few Hsh Hn).
  reflexivity.
Qed.

(** X13.  With fewer than three cells in the arrays (and dx not zero) a
    pass of the loop gets through the array expressions of the predictor
    stage, which work on empty slices, and raises IndexError at the
    boundary extension Qstar[0:2] = Qstar[2]; the loop stops with that
    exception in its first pass. *)
Theorem few_cells_raise (T0 : A) (n fuel : nat) (s : @state A) :
  shaped n s -> n < 3 ->
  step dx dt s = Raise IndexError /\
  (ltb (t s) T0 = true ->
   run dx dt T0 (S fuel) s = Some (Raise IndexError)).
Proof.
  intros Hsh Hn. split; [exact (step_few Hsh Hn)|].
  intros Hlt. now apply run_few with (n := n).
Qed.
End Few.

Lemma few_cells_raise_witness :
  let s := small_state [0.5; 0.25]%float in
  step 1%float 0.5%float s = Raise IndexError /\
  (ltb (t s) 1%float = true ->
   run 1%float 0.5%float 1%float 1 s = Some (Raise IndexError)).
Proof.
  intros s.
  apply (@few_cells_raise float Num_float 1%float 0.5%float eq_refl
           1%float 2 0 s).
  - repeat split; reflexivity.
  - lia.
Defined.

(* three cells: every stage works, on slices that are empty or have one
   entry *)
Section Three.
Context {A : Type} `{NumA : Num A}.
Variables (dx dt : A).
Hypothesis Hdx : is_zero dx = false.

Lemma fluxes_three (q : list A) (s : @state A) :
  length q = 3 -> length (dQplus s) = 3 -> length (dQminus s) = 3 ->
  length (F s) = 3 ->
  exists s',
    fluxes dx dt q s = Ok s' /\
    length (dQplus s') = 3 /\ length (dQminus s') = 3 /\
    length (F s') = 3 /\
    t s' = t s /\ heap s' = heap s /\ Q s' = Q s /\ Qnew s' = Qnew s /\
    Qstar s' = Qstar s /\ QQ s' = QQ s.
Proof.
  intros Hq Hp Hm HF.
  destruct s as [t0 h a qn qs sg dp dm Fl QQ0].
  cbn [dQplus dQminus F] in *.
  sized q. sized dp. sized dm. sized Fl.
  eexists. split; [cbn; reflexivity|].
  cbn. repeat split; reflexivity.
Qed.

Lemma extend_three (a : list A) :
  length a = 3 -> exists b, extend a = Ok b /\ length b = 3.
Proof.
  intros Ha. sized a. eexists. split; [cbn; reflexivity|reflexivity].
Qed.

Lemma predictor_three (s : @state A) :
  shaped 3 s ->
  exists s1, predictor dx dt s = Ok s1 /\ shaped 3 s1 /\
             t s1 = t s /\ heap s1 = heap s /\ Q s1 = Q s /\
             QQ s1 = QQ s.
Proof.
  intros (HQ & Hq & Hs & Hp & Hm & HF). unfold predictor.
  destruct (fluxes_three (load (heap s) (Q s)) s HQ Hp Hm HF)
    as (s1 & -> & Hp1 & Hm1 & HF1 & Ht & Hh & HQ1 & Hq1 & Hs1 & HQQ).
  cbn [bind]. unfold pydiv. rewrite Hdx. cbn [bind].
  assert (Hs1' : length (Qstar s1) = 3) by (rewrite Hs1; exact Hs).
  assert (HQ' : length (load (heap s1) (Q s1)) = 3)
    by (rewrite Hh, HQ1; exact HQ).
  assert (Hq1' : length (Qnew s1) = 3) by (rewrite Hq1; exact Hq).
  generalize (load (heap s) (Q s)) HQ. intros q Hlq.
  destruct (F s1) as [|f0 [|f1 [|f2 [|f3 Fl]]]]; try discriminate HF1.
  destruct (Qstar s1) as [|u0 [|u1 [|u2 [|u3 qs]]]]; try discriminate Hs1'.
  sized q. cbn.
  eexists. split; [reflexivity|].
  unfold shaped. cbn [heap Q Qnew Qstar dQplus dQminus F t QQ].
  repeat split; try assumption; try reflexivity.
Qed.

Lemma corrector_three (s : @state A) :
  shaped 3 s ->
  exists s1, corrector dx dt s = Ok s1 /\ shaped 3 s1 /\
             t s1 = t s /\ heap s1 = heap s /\ Q s1 = Q s /\
             QQ s1 = QQ s.
Proof.
  intros (HQ & Hq & Hs & Hp & Hm & HF). unfold corrector.
  destruct (fluxes_three (Qstar s) s Hs Hp Hm HF)
    as (s1 & -> & Hp1 & Hm1 & HF1 & Ht & Hh & HQ1 & Hq1 & Hs1 & HQQ).
  cbn [bind]. unfold pydiv. rewrite Hdx. cbn [bind].
  assert (Hs1' : length (Qstar s1) = 3) by (rewrite Hs1; exact Hs).
  assert (HQ' : length (load (heap s1) (Q s1)) = 3)
    by (rewrite Hh, HQ1; exact HQ).
  assert (Hq1' : length (Qnew s1) = 3) by (rewrite Hq1; exact Hq).
  generalize (load (heap s) (Q s)) HQ. intros q Hlq.
  destruct (F s1) as [|f0 [|f1 [|f2 [|f3 Fl]]]]; try discriminate HF1.
  destruct (Qstar s1) as [|u0 [|u1 [|u2 [|u3 qs]]]]; try discriminate Hs1'.
  destruct (Qnew s1) as [|w0 [|w1 [|w2 [|w3 qn]]]]; try discriminate Hq1'.
  sized q. cbn.
  eexists. split; [reflexivity|].
  unfold shaped. cbn [heap Q Qnew Qstar dQplus dQminus F t QQ].
  repeat split; try assumption; try reflexivity.
Qed.

Lemma advance_three (s : @state A) :
  shaped 3 s ->
  exists s', advance dt s = Ok s' /\ shaped 3 s' /\ t s' = add (t s) dt.
Proof.
  intros (HQ & Hq & Hs & Hp & Hm & HF). unfold advance, alloc.
  rewrite load_alloc.
  destruct (extend_three (Qnew s) Hq) as (b & -> & Hb). cbn [bind].
  eexists. split; [reflexivity|].
  unfold shaped. cbn [heap Q Qnew Qstar dQplus dQminus F t QQ].
  rewrite (@store_alloc A 5 (le_n 5)), load_alloc.
  repeat split; try assumption; reflexivity.
Qed.

Lemma step_three (s : @state A) :
  shaped 3 s ->
  exists s', step dx dt s = Ok s' /\ shaped 3 s' /\ t s' = add (t s) dt.
Proof.
  intros Hsh. unfold step.
  destruct (predictor_three Hsh) as (s1 & -> & Hsh1 & Ht1 & _).
  cbn [bind].
  destruct (corrector_three Hsh1) as (s2 & -> & Hsh2 & Ht2 & _).
  cbn [bind].
  destruct (advance_three Hsh2) as (s3 & -> & Hsh3 & Ht3).
  exists s3. split; [reflexivity|]. split; [exact Hsh3|].
  rewrite Ht3, Ht2, Ht1. reflexivity.
Qed.

(* with three cells the loop raises nothing *)
Lemma run_three (T0 : A) fuel : forall s : @state A,
  shaped 3 s -> forall e, run dx dt T0 fuel s <> Some (Raise e).
Proof.
  induction fuel as [|fuel IH]; intros s Hsh e; [discriminate|].
  cbn [run]. destruct (ltb (t s) T0); [|discriminate].
  destruct (step_three Hsh) as (s' & -> & Hsh' & _). now apply IH.
Qed.
End Three.

Open Scope R_scope.

(* the set-up for a negative number of cells: the grid is empty below -4 *)
Lemma arange_neg (mz : Z) :
  mz <> 0%Z ->
  exists x0,
    arange (div (mul (ofZ (-3)) (1 / IZR mz)) (ofZ 2))
      (add one (div (mul (ofZ 5) (1 / IZR mz)) (ofZ 2))) (1 / IZR mz)
    = Ok x0 /\ length x0 = Z.to_nat (mz + 4).
Proof.
  intros Hm.
  assert (Hz : IZR mz <> 0) by (intros H; apply eq_IZR_R0 in H; lia).
  unfold arange, one. cbn [ceil add sub mul div ofZ Num_R].
  replace ((1 + 5 * (1 / IZR mz) / 2 - -3 * (1 / IZR mz) / 2) / (1 / IZR mz))
    with (IZR (mz + 4)) by (rewrite plus_IZR; field; exact Hz).
  rewrite Rceil_IZR. eexists. split; [reflexivity|].
  rewrite length_map, length_seq. reflexivity.
Qed.

Lemma pydiv_nonzero (mz : Z) :
  mz <> 0%Z -> pydiv one (ofZ mz) = Ok (1 / IZR mz).
Proof.
  intros Hm. unfold pydiv. cbn [is_zero ofZ Num_R].
  rewrite Ris_zero_false; [reflexivity|].
  intros H. apply eq_IZR_R0 in H. lia.
Qed.

(* with three cells and a time step that is not positive the loop goes
   on for ever *)
Lemma run_three_forever (dx dt T0 : R) fuel : forall s : state,
  dx <> 0 -> dt <= 0 -> shaped 3 s -> t s < T0 ->
  run dx dt T0 fuel s = None.
Proof.
  induction fuel as [|fuel IH]; intros s Hdx Hdt Hsh Ht; [reflexivity|].
  cbn [run ltb Num_R]. rewrite Rltb_true by exact Ht.
  destruct (@step_three R Num_R dx dt (Ris_zero_false Hdx) s Hsh)
    as (s' & -> & Hsh' & Ht').
  apply IH; try assumption. rewrite Ht'. cbn [add Num_R]. lra.
Qed.

(** X14.  In exact arithmetic, with T > 0, what the script does with a
    negative number of cells m.  For m <= -5 the set-up stops where
    np.zeros(m+4) raises ValueError.  For m = -4, -3, -2 the arrays have
    m+4 < 3 entries and the first pass of the loop stops where the boundary
    extension raises IndexError.  For m = -1 the arrays have three entries
    and nothing is raised; with a factor >= 0 in dt the time step is not
    positive and the loop never terminates. *)
Theorem negative_cell_count (mz : Z) (T0 cfl0 : R) (q : R -> R) (fuel : nat) :
  0 < T0 ->
  ((mz <= -5)%Z ->
   program (mkConfig mz T0 cfl0 q) fuel = Some (Raise ValueError)) /\
  ((-4 <= mz <= -2)%Z ->
   program (mkConfig mz T0 cfl0 q) (S fuel) = Some (Raise IndexError)) /\
  (mz = (-1)%Z ->
   (forall e, program (mkConfig mz T0 cfl0 q) fuel <> Some (Raise e)) /\
   (0 <= cfl0 -> program (mkConfig mz T0 cfl0 q) fuel = None)).
Proof.
  intros HT. split; [|split]; intros Hm.
  - destruct (@arange_neg mz ltac:(lia)) as (x0 & Ex & _).
    unfold program, setup, to_float. cbn [m cfl q0 T fits Num_R bind].
    rewrite pydiv_nonzero by lia. cbn [bind]. rewrite Ex. cbn [bind].
    unfold zeros. destruct (Z.ltb_spec (mz + 4) 0) as [_|H]; [|lia].
    reflexivity.
  - destruct (@arange_neg mz ltac:(lia)) as (x0 & Ex & Hx).
    assert (Hz : IZR mz <> 0) by (intros H; apply eq_IZR_R0 in H; lia).
    assert (Hdx : 1 / IZR mz <> 0).
    { unfold Rdiv. rewrite Rmult_1_l. now apply Rinv_neq_0_compat. }
    unfold program, setup, to_float. cbn [m cfl q0 T fits Num_R bind].
    rewrite pydiv_nonzero by lia. cbn [bind]. rewrite Ex. cbn [bind].
    unfold zeros. destruct (Z.ltb_spec (mz + 4) 0) as [H|_]; [lia|].
    cbn [bind dx dt init T cfl q0].
    rewrite (@run_few R Num_R _ _) with (n := Z.to_nat (mz + 4));
      [reflexivity| | | |].
    + now apply Ris_zero_false.
    + unfold shaped, load. cbn [heap Q Qnew Qstar dQplus dQminus F nth].
      rewrite length_map, repeat_length.
      repeat split; try reflexivity. exact Hx.
    + lia.
    + cbn [t ltb Num_R]. now apply Rltb_true.
  - subst mz.
    destruct (@arange_neg (-1) ltac:(lia)) as (x0 & Ex & Hx).
    assert (Hdx : 1 / IZR (-1) <> 0) by lra.
    unfold program, setup, to_float. cbn [m cfl q0 T fits Num_R bind].
    rewrite pydiv_nonzero by lia. cbn [bind]. rewrite Ex. cbn [bind].
    unfold zeros. destruct (Z.ltb_spec (-1 + 4) 0) as [H|_]; [lia|].
    cbn [bind dx dt init T cfl q0].
    match goal with
    | |- context [run ?a ?b ?c ?d ?s0] =>
        assert (Hsh : shaped 3 s0); [|set (st := s0) in *]
    end.
    { unfold shaped, load. cbn [heap Q Qnew Qstar dQplus dQminus F nth].
      rewrite length_map, repeat_length.
      repeat split; try reflexivity. exact Hx. }
    split.
    + intros e H.
      pose proof (@run_three R Num_R (1 / IZR (-1)) (mul cfl0 (1 / IZR (-1)))
                    (Ris_zero_false Hdx) T0 fuel st Hsh) as Hsafe.
      destruct (run (1 / IZR (-1)) (mul cfl0 (1 / IZR (-1))) T0 fuel st)
        as [[s'|e']|]; try discriminate H.
      exact (Hsafe e' eq_refl).
    + intros Hc. rewrite run_three_forever; [reflexivity|exact Hdx| |exact Hsh|].
      * cbn [mul Num_R]. nra.
      * unfold st. cbn [t]. exact HT.
Qed.

Lemma negative_cell_count_witness :
  program (mkConfig (-7) 1 1 (fun v : R => v)) 0 = Some (Raise ValueError) /\
  program (mkConfig (-3) 1 1 (fun v : R => v)) 1 = Some (Raise IndexError) /\
  program (mkConfig (-1) 1 1 (fun v : R => v)) 5 = None.
Proof.
  split; [|split].
  - apply (@negative_cell_count (-7) 1 1 (fun v : R => v) 0); [lra|lia].
  - apply (@negative_cell_count (-3) 1 1 (fun v : R => v) 0); [lra|lia].
  - apply (@negative_cell_count (-1) 1 1 (fun v : R => v) 5);
      [lra|reflexivity|lra].
Defined.

(** ** What the animation shows *)

(** X15.  The axis limits ianimate uses by default, 0 and 1 for the
    horizontal axis, cut the picture at the edges of the physical domain.
    In exact arithmetic, for every m >= 1, whenever the script gets to its
    animation, the cell centres it draws against that fall in the window
    are exactly those of the interior cells 2 .. m+1: the two ghost cells
    on each side are not shown. *)
Theorem ghost_cells_hidden (mz : Z) (T0 cfl0 : R) (q : R -> R) (fuel : nat)
    (an : animation) :
  (1 <= mz)%Z ->
  script (mkConfig mz T0 cfl0 q) fuel = Some (Ok an) ->
  exists xc y,
    fplot an 0 = Ok (xc, y) /\ length xc = Z.to_nat (mz + 4) /\
    forall i, (i < length xc)%nat ->
      (fst (fst (fst (axis an))) <= get xc i <= snd (fst (fst (axis an)))
       <-> (2 <= i <= length xc - 3)%nat).
Proof.
  intros Hm E. unfold script in E. rewrite (program_R Hm) in E.
  destruct (ticks (cfl0 * (1 / IZR mz)) T0 fuel 0) as [k|]; [|discriminate].
  injection E as <-.
  eexists. eexists. split.
  { unfold ianimate. cbn [fplot].
    rewrite (@getitem_in _ _ 0%nat []); [reflexivity|].
    rewrite snapshots_length. lia. }
  rewrite tab_length. split; [reflexivity|].
  cbn [axis ianimate default_bounds fst snd ofZ Num_R].
  intros i Hi. rewrite get_tab by exact Hi.
  pose proof (dx0_pos Hm) as Hdx. pose proof (INR_n0 Hm) as Hn.
  set (d := 1 / IZR mz) in *.
  split.
  - intros [H0 H1]. split.
    + destruct (Nat.lt_ge_cases i 2) as [Hlt|Hge]; [|exact Hge].
      assert (INR i <= 1) by (apply (le_INR i 1); lia). nra.
    + destruct (Nat.lt_ge_cases (Z.to_nat (mz + 4) - 3) i) as [Hlt|Hge];
        [|exact Hge].
      assert (Hi2 : IZR mz + 2 <= INR i).
      { replace (IZR mz + 2) with (INR (Z.to_nat (mz + 4) - 2)).
        - apply le_INR. lia.
        - rewrite minus_INR by lia. rewrite Hn. cbn [INR]. lra. }
      assert (Hone : IZR mz * d = 1).
      { unfold d. field. now apply IZR_pos_neq. }
      nra.
  - intros [H2 H3]. apply le_INR in H2. cbn [INR] in H2.
    assert (Hi2 : INR i <= IZR mz + 1).
    { replace (IZR mz + 1) with (INR (Z.to_nat (mz + 4) - 3)).
      - apply le_INR. lia.
      - rewrite minus_INR by lia. rewrite Hn. cbn [INR]. lra. }
    assert (Hone : IZR mz * d = 1).
    { unfold d. field. now apply IZR_pos_neq. }
    split; nra.
Qed.

Lemma ghost_cells_hidden_witness :
  exists an xc y,
    script (mkConfig 2 1 1 (fun v : R => v)) 3 = Some (Ok an) /\
    fplot an 0 = Ok (xc, y) /\ length xc = 6%nat /\
    forall i, (i < length xc)%nat ->
      (fst (fst (fst (axis an))) <= get xc i <= snd (fst (fst (axis an)))
       <-> (2 <= i <= length xc - 3)%nat).
Proof.
  assert (Hm : (1 <= 2)%Z) by lia.
  assert (E : exists an,
            script (mkConfig 2 1 1 (fun v : R => v)) 3 = Some (Ok an)).
  { unfold script. rewrite (program_R Hm).
    rewrite (@ticks_R (1 * (1 / 2)) 1 2 3 0); [eexists; reflexivity| | |lia].
    - intros j Hj. assert (Hc : j = 0%nat \/ j = 1%nat) by lia.
      destruct Hc as [-> | ->]; cbn [INR]; lra.
    - cbn [INR]. lra. }
  destruct E as (an & E). exists an.
  destruct (@ghost_cells_hidden 2 1 1 (fun v : R => v) 3 an Hm E)
    as (xc & y & H).
  exists xc, y. split; [exact E|exact H].
Defined.

(** ** A bump away from the edges *)

(* where the array is zero around an interface, the flux there is zero *)
Lemma flux_c_zero (n : nat) (dx dt : R) (q : nat -> R) i :
  (5 <= n)%nat -> (2 <= i <= n - 2)%nat ->
  (forall j, (i - 2 <= j <= i + 1)%nat -> q j = 0) ->
  flux_c dx dt q i = 0.
Proof.
  intros Hn Hi Hq.
  rewrite (@flux_c_local R Num_R n dx dt Hn q (fun _ => 0) i Hq).
  rewrite (@flux_c_const n dx dt 0 Hn (fun _ => 0) (fun _ _ => eq_refl) i Hi).
  rewrite f_R. lra.
Qed.

Lemma star_c_zero (n : nat) (dx dt : R) (q : nat -> R) i :
  (5 <= n)%nat -> (2 <= i <= n - 3)%nat ->
  (forall j, (i - 2 <= j <= i + 2)%nat -> q j = 0) ->
  star_c dx dt q i = 0.
Proof.
  intros Hn Hi Hq.
  rewrite (@star_c_local R Num_R n dx dt Hn q (fun _ => 0) i Hq).
  exact (@star_c_const n dx dt 0 Hn (fun _ => 0) (fun _ _ => eq_refl) i Hi).
Qed.

(* fifteen cells, zero but for the three cells 6, 7, 8 in the middle: the
   fluxes at the edges 2 and 13 of the domain are zero in both stages, the
   fluxes between do not vanish and cancel in the sum *)
Lemma conservation_witness :
  let q0 := [0; 0; 0; 0; 0; 0; 3 / 10; 7 / 10; 1 / 5; 0; 0; 0; 0; 0; 0] in
  let s := small_state q0 in
  let dx := 1 / 100 in
  let dt := 4 / 1000 in
  exists s1 s2 s',
    predictor dx dt s = Ok s1 /\ corrector dx dt s1 = Ok s2 /\
    advance dt s2 = Ok s' /\
    get (F s1) 2 = 0 /\ get (F s1) (15 - 2) = 0 /\
    get (F s2) 2 = 0 /\ get (F s2) (15 - 2) = 0 /\
    total dx (load (heap s') (Q s')) = total dx (load (heap s) (Q s)).
Proof.
  intros q0 s dx dt.
  assert (Hn : (5 <= 15)%nat) by lia.
  assert (Hdx : 0 < dx) by (unfold dx; lra).
  assert (Hz : is_zero dx = false) by (apply Ris_zero_false; lra).
  assert (Hsh : shaped 15 s) by (repeat split; reflexivity).
  pose proof Hsh as (HQ & Hq & Hs & Hp & Hm & HF).
  apply as_tab in HQ, Hq, Hs, Hp, Hm, HF; try exact Hn.
  set (q := get (load (heap s) (Q s))) in *.
  assert (Hlo : forall j, (j <= 5)%nat -> q j = 0).
  { intros j Hj.
    do 6 (destruct j as [|j]; [try reflexivity; lia|]). lia. }
  assert (Hhi : forall j, (9 <= j <= 14)%nat -> q j = 0).
  { intros j Hj.
    do 15 (destruct j as [|j]; [try reflexivity; lia|]). lia. }
  pose proof (@predictor_tab R Num_R 15 dx dt Hn Hz _ _ _ _ _ s
                HQ Hs Hp Hm HF) as E1.
  set (F1 := stage_flux 15 dx dt q (get (dQplus s)) (get (dQminus s))
               (get (F s))) in *.
  set (qs := extend_at 15 (star_at 15 dx dt q F1 (get (Qstar s)))) in *.
  match type of E1 with
  | _ = Ok ?s1 =>
      pose proof (@corrector_tab R Num_R 15 dx dt Hn Hz q qs (get (Qnew s))
                    _ _ _ s1 HQ eq_refl Hq eq_refl eq_refl eq_refl) as E2
  end.
  match type of E2 with
  | _ = Ok ?s2 => pose proof (@advance_tab R Num_R 15 dt Hn _ s2 eq_refl) as E3
  end.
  assert (Hqs : forall j, qs j = extend_at 15 (star_c dx dt q) j).
  { intros j. unfold qs, F1. apply (star_entries dx dt Hn). }
  assert (Hqlo : forall j, (j <= 3)%nat -> qs j = 0).
  { intros j Hj. rewrite Hqs. unfold extend_at.
    nat_cases; apply (@star_c_zero 15 dx dt q); try lia;
      intros l Hl; apply Hlo; lia. }
  assert (Hqhi : forall j, (11 <= j <= 14)%nat -> qs j = 0).
  { intros j Hj. rewrite Hqs. unfold extend_at.
    nat_cases; apply (@star_c_zero 15 dx dt q); try lia;
      intros l Hl; apply Hhi; lia. }
  match type of E1 with _ = Ok ?r => set (s1 := r) in * end.
  match type of E2 with _ = Ok ?r => set (s2 := r) in * end.
  match type of E3 with _ = Ok ?r => set (s3 := r) in * end.
  assert (B1 : get (F s1) 2 = 0).
  { unfold s1. cbn [F]. rewrite get_tab by lia. unfold F1.
    rewrite (stage_flux_c dx dt Hn) by lia.
    apply (@flux_c_zero 15); try lia. intros l Hl. apply Hlo. lia. }
  assert (B2 : get (F s1) (15 - 2) = 0).
  { unfold s1. cbn [F]. rewrite get_tab by lia. unfold F1.
    rewrite (stage_flux_c dx dt Hn) by lia.
    apply (@flux_c_zero 15); try lia. intros l Hl. apply Hhi. lia. }
  assert (B3 : get (F s2) 2 = 0).
  { unfold s2. cbn [F]. rewrite get_tab by lia.
    rewrite (stage_flux_c dx dt Hn) by lia.
    apply (@flux_c_zero 15); try lia. intros l Hl. apply Hqlo. lia. }
  assert (B4 : get (F s2) (15 - 2) = 0).
  { unfold s2. cbn [F]. rewrite get_tab by lia.
    rewrite (stage_flux_c dx dt Hn) by lia.
    apply (@flux_c_zero 15); try lia. intros l Hl. apply Hqhi. lia. }
  exists s1, s2, s3.
  split; [exact E1|]. split; [exact E2|]. split; [exact E3|].
  split; [exact B1|]. split; [exact B2|]. split; [exact B3|].
  split; [exact B4|].
  exact (@conservation 15 dx dt s s1 s2 s3 Hn Hdx Hsh E1 E2 E3 B1 B2 B3 B4).
Defined.

(** C5, as stated, fails for the program.  In binary64, with the script's
    dx = 1/100 and dt = 0.4*dx, thirteen cells that are zero but for 0.3,
    0.7, 0.2 in the cells 5, 6, 7 give a time step in which the fluxes at
    the two edges of the domain (indices 2 and 11) are zero in the
    predictor and in the corrector stage, while the sum of Q[i]*dx over
    the interior cells goes from 0.012 to 0.011999999999999999: the flux
    differences cancel only up to rounding. *)
Lemma conservation_counterexample :
  let q0 := [zero; zero; zero; zero; zero; tenths 3; tenths 7; tenths 2;
             zero; zero; zero; zero; zero] : list float in
  let s := small_state q0 in
  let dx := div one (ofZ 100) in
  let dt := mul (tenths 4) dx in
  exists s1 s2 s',
    predictor dx dt s = Ok s1 /\ corrector dx dt s1 = Ok s2 /\
    advance dt s2 = Ok s' /\
    get (F s1) 2 = zero /\ get (F s1) (13 - 2) = zero /\
    get (F s2) 2 = zero /\ get (F s2) (13 - 2) = zero /\
    PrimFloat.eqb (total dx (load (heap s) (Q s))) 0.012%float = true /\
    PrimFloat.eqb (total dx (load (heap s') (Q s'))) 0.011999999999999999%float
    = true /\
    total dx (load (heap s') (Q s')) <> total dx (load (heap s) (Q s)).
Proof.
  intros q0 s dx dt. do 3 eexists.
  split; [vm_compute; reflexivity|]. split; [vm_compute; reflexivity|].
  split; [vm_compute; reflexivity|].
  split; [reflexivity|]. split; [reflexivity|].
  split; [reflexivity|]. split; [reflexivity|].
  split; [vm_compute; reflexivity|]. split; [vm_compute; reflexivity|].
  match goal with
  | |- ?a <> ?b =>
      intros H;
      assert (E : PrimFloat.ltb a b = true) by (vm_compute; reflexivity);
      rewrite H in E; vm_compute in E; discriminate E
  end.
Qed.
